(** * renderlayout: data-merge, error surfacing and render fallback

    A shallow embedding of the two generations of the renderlayout package:
    the [LayoutRenderer] with its [Handle] method (single string at the error
    key) and the [renderer] closed over by the handler that [New] returns in
    render.go (a sequence of strings at the error key).

    Go maps are finite maps that may be nil, strings are byte strings, the
    [http.ResponseWriter] is the body written so far, and a run-time panic is
    an outcome of its own.  The collaborators that live outside the package
    (Unicode case tables; the sprig function library, the directory listing
    and the goview engine) are the fields of two classes, [CaseTables] and
    [Collaborators].  Log lines are not modelled: they leave the response
    and the view context alone. *)

From Stdlib Require Import ZArith Strings.String Strings.Ascii List Bool Lia.
From stdpp Require Import gmap strings list fin_maps.

Local Open Scope Z_scope.

(** ** Go strings as bytes *)

Module GoText.

(** A byte is an integer in 0..255, a rune an [int32] code point. *)
Definition bytes_of (s : string) : list Z :=
  map (fun a => Z.of_N (N_of_ascii a)) (list_ascii_of_string s).

Definition string_of (bs : list Z) : string :=
  string_of_list_ascii (map (fun b => ascii_of_N (Z.to_N b)) bs).

Definition RuneError : Z := 0xFFFD.
Definition RuneSelf : Z := 0x80.
Definition MaxRune : Z := 0x10FFFF.

Definition between (lo hi b : Z) : bool := (lo <=? b) && (b <=? hi).
Definition is_cont (b : Z) : bool := between 0x80 0xBF b.
Definition low6 (b : Z) : Z := Z.land b 0x3F.

(** utf8.DecodeRuneInString: the rune at the head of [bs] and its width;
    a malformed or truncated sequence is (RuneError, 1). *)
Definition DecodeRune (bs : list Z) : Z * nat :=
  match bs with
  | [] => (RuneError, 0%nat)
  | b0 :: t =>
    if b0 <? RuneSelf then (b0, 1%nat)
    else if between 0xC2 0xDF b0 then
      match t with
      | b1 :: _ =>
        if is_cont b1
        then (Z.lor (Z.shiftl (Z.land b0 0x1F) 6) (low6 b1), 2%nat)
        else (RuneError, 1%nat)
      | _ => (RuneError, 1%nat)
      end
    else if between 0xE0 0xEF b0 then
      match t with
      | b1 :: b2 :: _ =>
        let lo := if b0 =? 0xE0 then 0xA0 else 0x80 in
        let hi := if b0 =? 0xED then 0x9F else 0xBF in
        if between lo hi b1 && is_cont b2
        then (Z.lor (Z.shiftl (Z.land b0 0x0F) 12)
                (Z.lor (Z.shiftl (low6 b1) 6) (low6 b2)), 3%nat)
        else (RuneError, 1%nat)
      | _ => (RuneError, 1%nat)
      end
    else if between 0xF0 0xF4 b0 then
      match t with
      | b1 :: b2 :: b3 :: _ =>
        let lo := if b0 =? 0xF0 then 0x90 else 0x80 in
        let hi := if b0 =? 0xF4 then 0x8F else 0xBF in
        if between lo hi b1 && is_cont b2 && is_cont b3
        then (Z.lor (Z.shiftl (Z.land b0 0x07) 18)
                (Z.lor (Z.shiftl (low6 b1) 12)
                   (Z.lor (Z.shiftl (low6 b2) 6) (low6 b3))), 4%nat)
        else (RuneError, 1%nat)
      | _ => (RuneError, 1%nat)
      end
    else (RuneError, 1%nat)
  end.

(** utf8.EncodeRune / AppendRune: out-of-range runes and surrogates are
    written as RuneError. *)
Definition EncodeRune (r : Z) : list Z :=
  if between 0 0x7F r then [r]
  else if between 0x80 0x7FF r then
    [Z.lor 0xC0 (Z.shiftr r 6); Z.lor 0x80 (low6 r)]
  else if (r <? 0) || (MaxRune <? r) || between 0xD800 0xDFFF r then
    [0xEF; 0xBF; 0xBD]
  else if r <=? 0xFFFF then
    [Z.lor 0xE0 (Z.shiftr r 12); Z.lor 0x80 (low6 (Z.shiftr r 6));
     Z.lor 0x80 (low6 r)]
  else
    [Z.lor 0xF0 (Z.shiftr r 18); Z.lor 0x80 (low6 (Z.shiftr r 12));
     Z.lor 0x80 (low6 (Z.shiftr r 6)); Z.lor 0x80 (low6 r)].

(** The conversion []rune(s): [skip] counts the bytes of the rune decoded
    last that are still to be passed over. *)
Fixpoint runes_from (skip : nat) (bs : list Z) : list Z :=
  match bs with
  | [] => []
  | _ :: t =>
    match skip with
    | S k => runes_from k t
    | O => let '(r, w) := DecodeRune bs in r :: runes_from (w - 1) t
    end
  end.

Definition runes (s : string) : list Z := runes_from 0 (bytes_of s).

(** The conversion string(rs) of a rune slice. *)
Definition string_of_runes (rs : list Z) : string :=
  string_of (concat (map EncodeRune rs)).

(** utf8.ValidRune: a code point that is no surrogate half. *)
Definition ValidRune (r : Z) : bool :=
  if (0 <=? r) && (r <? 0xD800) then true
  else if (0xDFFF <? r) && (r <=? MaxRune) then true
  else false.

Definition is_ascii (bs : list Z) : bool := forallb (fun b => b <? RuneSelf) bs.

(** strings.HasSuffix and strings.TrimSuffix, on byte offsets. *)
Definition HasSuffix (s suffix : string) : bool :=
  (String.length suffix <=? String.length s)%nat &&
  String.eqb
    (substring (String.length s - String.length suffix) (String.length suffix) s)
    suffix.

Definition TrimSuffix (s suffix : string) : string :=
  if HasSuffix s suffix
  then substring 0 (String.length s - String.length suffix) s
  else s.

(** unicode.To(UpperCase, r) and unicode.To(LowerCase, r) walk the Unicode
    case-range tables; they are consulted above U+007F only. *)
Class CaseTables := {
    To_UpperCase : Z -> Z;
    To_LowerCase : Z -> Z
  }.

Section Case.
Context `{CaseTables}.

(** unicode.ToUpper and unicode.ToLower: arithmetic on ASCII, the tables
    elsewhere. *)
Definition ToUpper (r : Z) : Z :=
  if r <=? 0x7F then (if between 97 122 r then r - 32 else r)
  else To_UpperCase r.

Definition ToLower (r : Z) : Z :=
  if r <=? 0x7F then (if between 65 90 r then r + 32 else r)
  else To_LowerCase r.

(** strings.Map(mapping, s): a negative result drops the rune. *)
Definition strings_Map (mapping : Z -> Z) (s : string) : string :=
  string_of
    (concat (map (fun r => let r' := mapping r in
                           if r' <? 0 then [] else EncodeRune r')
                 (runes s))).

(** strings.ToLower: bytes are shifted in place when the string is ASCII,
    otherwise every rune goes through unicode.ToLower. *)
Definition strings_ToLower (s : string) : string :=
  let bs := bytes_of s in
  if is_ascii bs
  then string_of (map (fun c => if between 65 90 c then c + 32 else c) bs)
  else strings_Map ToLower s.
End Case.

End GoText.

(** ** fmt with a format and no operands *)

Module Fmt.
Import GoText.

Definition is_flag (c : Z) : bool :=
  (c =? 35) || (c =? 48) || (c =? 43) || (c =? 45) || (c =? 32).
Definition is_digit (c : Z) : bool := between 48 57 c.
Definition tooLarge (x : Z) : bool := (1000000 <? x) || (x <? -1000000).

Definition noVerbString : string := "%!(NOVERB)".
Definition badWidthString : string := "%!(BADWIDTH)".
Definition badPrecString : string := "%!(BADPREC)".
Definition badIndexString : string := "(BADINDEX)".
Definition missingString : string := "(MISSING)".

(** parsenum(s, start, end) on the window [bs] = s[start:end]: the number,
    whether one was read, and how far the index moved; on overflow it
    answers with the end of the window. [window] is end - start. *)
Fixpoint parsenum_from (bs : list Z) (num : Z) (isnum : bool) (moved : nat)
    (window : nat) : Z * bool * nat :=
  match bs with
  | c :: t =>
    if is_digit c then
      if tooLarge num then (0, false, window)
      else parsenum_from t (num * 10 + (c - 48)) true (S moved) window
    else (num, isnum, moved)
  | [] => (num, isnum, moved)
  end.

Definition parsenum (bs : list Z) : Z * bool * nat :=
  parsenum_from bs 0 false 0 (List.length bs).

(** Index of the first closing bracket at position 1 or later. *)
Fixpoint find_close (bs : list Z) (i : nat) : option nat :=
  match bs with
  | [] => None
  | c :: t => if c =? 93 then Some i else find_close t (S i)
  end.

(** parseArgNumber(format[i:]), where format[i] is an opening bracket:
    the width of the bracketed text and whether it held a number. *)
Definition parseArgNumber (bs : list Z) : nat * bool :=
  if (List.length bs <? 3)%nat then (1%nat, false)
  else
    match find_close (tail bs) 1 with
    | Some i =>
      let '(_, ok, newi) := parsenum (firstn (i - 1) (tail bs)) in
      if negb ok || negb (newi + 1 =? i)%nat then (S i, false) else (S i, true)
    | None => (1%nat, false)
    end.

(** pp.argNumber with no operands: an index can never be in range, so a
    bracket always clears goodArgNum. Answers (bytes passed, found,
    goodArgNum). *)
Definition argNumber (bs : list Z) (goodArgNum : bool) : nat * bool * bool :=
  match bs with
  | 91 :: _ => let '(wid, ok) := parseArgNumber bs in (wid, ok, false)
  | _ => (0%nat, false, goodArgNum)
  end.

Fixpoint skip_flags (bs : list Z) : nat :=
  match bs with
  | c :: t => if is_flag c then S (skip_flags t) else 0%nat
  | [] => 0%nat
  end.

(** One verb of pp.doPrintf with no operands; [bs] is the format after the
    percent sign. Answers the text written and the bytes passed. A star
    finds no operand (BADWIDTH, BADPREC), the format may end before the verb
    (NOVERB), a doubled percent sign is a percent sign, and any other verb
    finds its operand missing or its index bad. A dot starts a precision
    only when a byte follows it (i+1 < end); a dot that ends the format is
    the verb itself. *)
Definition directive (bs : list Z) : list Z * nat :=
  let n0 := skip_flags bs in
  let bs := drop n0 bs in
  let '(n1, afterIndex, good) := argNumber bs true in
  let bs := drop n1 bs in
  let '(out_w, n2, afterIndex, good) :=
    match bs with
    | 42 :: _ => (bytes_of badWidthString, 1%nat, false, good)
    | _ =>
      let '(_, present, moved) := parsenum bs in
      ([], moved, afterIndex, if afterIndex && present then false else good)
    end in
  let bs := drop n2 bs in
  let '(out_p, n3, afterIndex, good) :=
    match bs with
    | 46 :: ((_ :: _) as t) =>
      let good := if afterIndex then false else good in
      let '(k, afterIndex, good) := argNumber t good in
      match drop k t with
      | 42 :: _ => (bytes_of badPrecString, (1 + k + 1)%nat, false, good)
      | t' =>
        let '(_, _, moved) := parsenum t' in
        ([], (1 + k + moved)%nat, afterIndex, good)
      end
    | _ => ([], 0%nat, afterIndex, good)
    end in
  let bs := drop n3 bs in
  let '(n4, good) :=
    if afterIndex then (0%nat, good)
    else let '(k, _, g) := argNumber bs good in (k, g) in
  let bs := drop n4 bs in
  let passed := (n0 + n1 + n2 + n3 + n4)%nat in
  match bs with
  | [] => (out_w ++ out_p ++ bytes_of noVerbString, passed)
  | c :: _ =>
    let '(verb, size) := if c <? RuneSelf then (c, 1%nat) else DecodeRune bs in
    let text :=
      if verb =? 37 then [37]
      else if negb good
           then 37 :: 33 :: EncodeRune verb ++ bytes_of badIndexString
           else 37 :: 33 :: EncodeRune verb ++ bytes_of missingString in
    (out_w ++ out_p ++ text, (passed + size)%nat)
  end.

(** The format loop of pp.doPrintf: text up to a percent sign is copied,
    then one verb is processed; [skip] counts the bytes of that verb still
    to be passed over. *)
Fixpoint doPrintf_from (skip : nat) (bs : list Z) : list Z :=
  match bs with
  | [] => []
  | c :: t =>
    match skip with
    | S k => doPrintf_from k t
    | O =>
      if c =? 37
      then let '(text, passed) := directive t in text ++ doPrintf_from passed t
      else c :: doPrintf_from 0 t
    end
  end.

(** fmt.Sprintf(format) with no operands. *)
Definition Sprintf0 (format : string) : string :=
  string_of (doPrintf_from 0 (bytes_of format)).


(** The %s verb applied to a string operand writes the operand. *)
Definition Sprintf_s_slash_s (a b : string) : string := a +:+ "/" +:+ b.
Definition Sprintf_dot_s (a : string) : string := "." +:+ a.
Definition Sprintf_s_space_s (a b : string) : string := a +:+ " " +:+ b.

End Fmt.

(** ** Values, maps, errors and outcomes shared by both generations *)

Module Go.
Export GoText Fmt.

(** An interface{} value held in a view context: nil, a string, a []string,
    or a value of any other dynamic type, kept as the text the %s verb
    prints for it. *)
Inductive value : Type :=
  | VNil
  | VString (s : string)
  | VStrings (l : list string)
  | VOther (shown : string).

Definition is_nil (v : value) : bool :=
  match v with VNil => true | _ => false end.

Fixpoint join_space (l : list string) : string :=
  match l with
  | [] => ""
  | [x] => x
  | x :: rest => x +:+ " " +:+ join_space rest
  end.

(** The text of one %s operand. *)
Definition fmt_s (v : value) : string :=
  match v with
  | VNil => "%!s(<nil>)"
  | VString s => s
  | VStrings l => "[" +:+ join_space l +:+ "]"
  | VOther shown => shown
  end.

(** A run either completes or panics. *)
Inductive outcome (A : Type) : Type :=
  | Done (a : A)
  | Panic (reason : string).
Arguments Done {A} a.
Arguments Panic {A} reason.

#[global] Instance outcome_ret : MRet outcome := fun A a => Done a.
#[global] Instance outcome_bind : MBind outcome := fun A B f m =>
  match m with Done a => f a | Panic reason => Panic reason end.

(** A Go map is a reference that may be nil: reading and ranging over the
    nil map see no entry, assigning into it panics. *)
Definition gomap (V : Type) : Type := option (gmap string V).

Definition make {V} : gomap V := Some ∅.
Definition entries {V} (m : gomap V) : gmap string V := default ∅ m.

Definition mapaccess (m : gomap value) (k : string) : value :=
  default VNil (entries m !! k).

Definition mapassign {V} (m : gomap V) (k : string) (v : V) : outcome (gomap V) :=
  match m with
  | Some g => Done (Some (<[k := v]> g))
  | None => Panic "assignment to entry in nil map"
  end.

(** for k, v := range src { dst[k] = v } *)
Definition range_assign {V} (src dst : gomap V) : outcome (gomap V) :=
  map_fold (fun k v acc => acc ≫= fun d => mapassign d k v) (Done dst) (entries src).

(** The same loop into a map that make has just returned. *)
Definition copy_entries {V} (src : gomap V) (dst : gmap string V) : gmap string V :=
  map_fold (fun k v acc => <[k := v]> acc) dst (entries src).

(** An error value: one without an Unwrap method (errors.New), or one that
    wraps a cause (fmt.Errorf with a %w operand; [text] is the formatted
    message). errors.Unwrap answers the cause, or nil. *)
Inductive error : Type :=
  | errors_New (text : string)
  | Errorf_w (text : string) (wrapped : error).

Definition Error (e : error) : string :=
  match e with errors_New text | Errorf_w text _ => text end.

Definition errors_Unwrap (e : error) : option error :=
  match e with errors_New _ => None | Errorf_w _ wrapped => Some wrapped end.

Inductive result (A : Type) : Type :=
  | Ok (a : A)
  | Failed (err : error).
Arguments Ok {A} a.
Arguments Failed {A} err.

(** The http.ResponseWriter, as the body written to it so far. *)
Definition ResponseWriter : Type := string.
Definition StatusOK : Z := 200.

(** fmt.Fprintf(w, format) *)
Definition Fprintf (w : ResponseWriter) (format : string) : ResponseWriter :=
  w +:+ Sprintf0 format.

(** A template function, by the identity of its implementation. *)
Inductive Func : Type := FuncImpl (id : nat).

Record goview_Delims : Type := { Left : string; Right : string }.

Record goview_Config : Type := {
    Root : string;
    Extension_ : string;
    Master : string;
    Partials : list string;
    Funcs : gomap Func;
    DisableCache_ : bool;
    Delims : goview_Delims
  }.

(** What the package consumes: the sprig library, the directory listing
    (file names, in listing order) and the render call of an engine built
    from a configuration. *)
Class Collaborators := {
    sprig_FuncMap : gmap string Func;
    ioutil_ReadDir : string -> result (list string);
    ViewEngine_Render :
      goview_Config -> ResponseWriter -> Z -> string -> gomap value ->
      ResponseWriter * option error
  }.

(** first, defined alike in both files: the first rune upper-cased. *)
Definition first `{CaseTables} (str : string) : string :=
  if (String.length str =? 0)%nat then ""
  else
    match runes str with
    | r :: rest => string_of_runes (ToUpper r :: rest)
    | [] => ""
    end.

(** The loop of New over the directory listing. *)
Definition discover_partials (partials extension : string) (fileInfo : list string)
    : list string :=
  fold_left
    (fun acc name =>
       if negb (HasSuffix name extension) then acc
       else acc ++ [Sprintf_s_slash_s partials (TrimSuffix name extension)])
    fileInfo [].

(** The partial set in the words of the specification: an entry named
    stem ++ extension is emitted as partials/stem, any other entry is left
    out, and the listing order is kept. *)
Inductive partial_set (partials extension : string)
      : list string -> list string -> Prop :=
  | partial_set_nil : partial_set partials extension [] []
  | partial_set_keep stem names out :
      partial_set partials extension names out ->
      partial_set partials extension
        ((stem +:+ extension) :: names) ((partials +:+ "/" +:+ stem) :: out)
  | partial_set_skip name names out :
      (forall stem, name <> stem +:+ extension) ->
      partial_set partials extension names out ->
      partial_set partials extension (name :: names) out.

(** The Error Classifier in the words of the specification: no error, a
    user-facing message (the wrapped cause's text, lower-cased, first rune
    upper-cased), or an internal failure. *)
Inductive classified : Type :=
| NoError
| UserFacing (message : string)
| Internal (cause : error).

Definition classify `{CaseTables} (err : option error) : classified :=
  match err with
  | None => NoError
  | Some e =>
    match errors_Unwrap e with
    | Some cause => UserFacing (first (strings_ToLower (Error cause)))
    | None => Internal e
    end
  end.

Definition user_message (c : classified) : option string :=
  match c with UserFacing message => Some message | _ => None end.

Definition is_user_facing (c : classified) : bool :=
  match c with UserFacing _ => true | _ => false end.


End Go.

(** ** The LayoutRenderer generation: one string at the error key *)

Module Layout.
Export Go.

(** M is a map from names to values. Go also tells a value of type M from
    a map[string]interface{} with the same entries (a template can print
    the type); maps are taken here by their entries and by being nil or
    not, so that difference is outside what is stated below. *)
Definition M : Type := gomap value.

(** A view handler reads the request and may write to the response; it is
    a function of the writer it is handed. *)
Definition ViewHandlerFunc : Type := ResponseWriter -> M * option error * ResponseWriter.

Record LayoutRenderer : Type := mkLayoutRenderer {
    errorKey : string;
    root : string;
    layout : string;
    layouts : string;
    partials : string;
    extension : string;
    disableCache : bool;
    defaultError : string;
    renderError : string;
    delims : goview_Delims;
    funcs : gomap Func;
    goviewConfig : option goview_Config;
    viewEngine : option goview_Config;
    defaultHandler : option ViewHandlerFunc
  }.

Inductive LayoutRendererOption : Type :=
  | DefaultHandler (handlerFunc : option ViewHandlerFunc)
  | ErrorKey (key : string)
  | TemplatesPath (templatesPath : string)
  | LayoutsPath (layouts : string)
  | PartialsPath (partials : string)
  | Layout (layout : string)
  | Extension (extension : string)
  | DisableCache (disableCache : bool)
  | Delimiters (left_ right_ : string)
  | AddFuncs (funcMap : gomap Func)
  | DefaultError (defaultError : string)
  | RenderError (error : string).

(** Running one option on the renderer. *)
Definition apply_option (opt : LayoutRendererOption) (d : LayoutRenderer)
    : LayoutRenderer :=
  let 'mkLayoutRenderer ek ro la ls pa ex dc de re dl fu gc ve dh := d in
  match opt with
  | DefaultHandler handlerFunc =>
    mkLayoutRenderer ek ro la ls pa ex dc de re dl fu gc ve handlerFunc
  | ErrorKey key => mkLayoutRenderer key ro la ls pa ex dc de re dl fu gc ve dh
  | TemplatesPath templatesPath =>
    mkLayoutRenderer ek templatesPath la ls pa ex dc de re dl fu gc ve dh
  | LayoutsPath layouts => mkLayoutRenderer ek ro la layouts pa ex dc de re dl fu gc ve dh
  | PartialsPath partials => mkLayoutRenderer ek ro la ls partials ex dc de re dl fu gc ve dh
  | Layout layout => mkLayoutRenderer ek ro layout ls pa ex dc de re dl fu gc ve dh
  | Extension extension =>
    mkLayoutRenderer ek ro la ls pa (Sprintf_dot_s extension) dc de re dl fu gc ve dh
  | DisableCache disableCache =>
    mkLayoutRenderer ek ro la ls pa ex disableCache de re dl fu gc ve dh
  | Delimiters left_ right_ =>
    mkLayoutRenderer ek ro la ls pa ex dc de re
      {| Left := left_; Right := right_ |} fu gc ve dh
  | AddFuncs funcMap => mkLayoutRenderer ek ro la ls pa ex dc de re dl funcMap gc ve dh
  | DefaultError defaultError =>
    mkLayoutRenderer ek ro la ls pa ex dc defaultError re dl fu gc ve dh
  | RenderError error => mkLayoutRenderer ek ro la ls pa ex dc de error dl fu gc ve dh
  end.

(** The field an option writes, what it writes there, and how the field
    is read back. *)
Inductive field : Type :=
  | F_defaultHandler | F_errorKey | F_root | F_layouts | F_partials | F_layout
  | F_extension | F_disableCache | F_delims | F_funcs | F_defaultError
  | F_renderError.

Inductive setting : Type :=
  | SString (s : string)
  | SBool (b : bool)
  | SDelims (d : goview_Delims)
  | SFuncs (f : gomap Func)
  | SHandler (h : option ViewHandlerFunc).

Definition field_of (opt : LayoutRendererOption) : field :=
  match opt with
  | DefaultHandler _ => F_defaultHandler
  | ErrorKey _ => F_errorKey
  | TemplatesPath _ => F_root
  | LayoutsPath _ => F_layouts
  | PartialsPath _ => F_partials
  | Layout _ => F_layout
  | Extension _ => F_extension
  | DisableCache _ => F_disableCache
  | Delimiters _ _ => F_delims
  | AddFuncs _ => F_funcs
  | DefaultError _ => F_defaultError
  | RenderError _ => F_renderError
  end.

Definition written (opt : LayoutRendererOption) : setting :=
  match opt with
  | DefaultHandler handlerFunc => SHandler handlerFunc
  | ErrorKey key => SString key
  | TemplatesPath templatesPath => SString templatesPath
  | LayoutsPath layouts => SString layouts
  | PartialsPath partials => SString partials
  | Layout layout => SString layout
  | Extension extension => SString (Sprintf_dot_s extension)
  | DisableCache disableCache => SBool disableCache
  | Delimiters left_ right_ => SDelims {| Left := left_; Right := right_ |}
  | AddFuncs funcMap => SFuncs funcMap
  | DefaultError defaultError => SString defaultError
  | RenderError error => SString error
  end.

Definition read (f : field) (d : LayoutRenderer) : setting :=
  match f with
  | F_defaultHandler => SHandler (defaultHandler d)
  | F_errorKey => SString (errorKey d)
  | F_root => SString (root d)
  | F_layouts => SString (layouts d)
  | F_partials => SString (partials d)
  | F_layout => SString (layout d)
  | F_extension => SString (extension d)
  | F_disableCache => SBool (disableCache d)
  | F_delims => SDelims (delims d)
  | F_funcs => SFuncs (funcs d)
  | F_defaultError => SString (defaultError d)
  | F_renderError => SString (renderError d)
  end.

Definition defaults : LayoutRenderer := {|
    errorKey := "error";
    root := "templates";
    layout := "index";
    layouts := "layouts";
    partials := "partials";
    extension := ".html";
    disableCache := false;
    defaultError := "Internal Error";
    renderError := "Something went wrong.";
    delims := {| Left := "{{"; Right := "}}" |};
    funcs := None;
    goviewConfig := None;
    viewEngine := None;
    defaultHandler := None
  |}.

(** for _, opt := range opts { opt(d) } *)
Definition apply_options (opts : list LayoutRendererOption) (d : LayoutRenderer)
    : LayoutRenderer :=
  fold_left (fun d opt => apply_option opt d) opts d.

(** The fields New reads when it lists the partials and builds the
    configuration for goview.New. *)
Definition is_engine_field (f : field) : bool :=
  match f with
  | F_root | F_partials | F_extension | F_layouts | F_layout | F_disableCache => true
  | _ => false
  end.

(** Two renderers agree off the delimiters when running one fixed Delimiters
    option on both makes them equal. *)
Definition agree_off_delims (a b : LayoutRenderer) : Prop :=
  apply_option (Delimiters "" "") a = apply_option (Delimiters "" "") b.

Section WithCollaborators.
Context `{CaseTables} `{Collaborators}.

(** allFuncs: the user's entries first, then sprig's written over them. *)
Definition allFuncs (d : LayoutRenderer) : gmap string Func :=
  copy_entries (Some sprig_FuncMap) (copy_entries (funcs d) ∅).

(** The configuration New hands to goview.New; Delims is left at its
    zero value. *)
Definition engine_config (d : LayoutRenderer) (discovered : list string)
      : goview_Config := {|
    Root := root d;
    Extension_ := extension d;
    Master := Sprintf_s_slash_s (layouts d) (layout d);
    Partials := discovered;
    Funcs := Some sprig_FuncMap;
    DisableCache_ := disableCache d;
    Delims := {| Left := ""; Right := "" |}
  |}.

Definition New (opts : list LayoutRendererOption) : result LayoutRenderer :=
  let d := apply_options opts defaults in
  let d := let 'mkLayoutRenderer ek ro la ls pa ex dc de re dl _ gc ve dh := d in
           mkLayoutRenderer ek ro la ls pa ex dc de re dl (Some (allFuncs d)) gc ve dh in
  match ioutil_ReadDir (Sprintf_s_slash_s (root d) (partials d)) with
  | Failed err => Failed err
  | Ok fileInfo =>
    let discovered := discover_partials (partials d) (extension d) fileInfo in
    let viewEngine := engine_config d discovered in
    let 'mkLayoutRenderer ek ro la ls pa ex dc de re dl fu gc _ dh := d in
    Ok (mkLayoutRenderer ek ro la ls pa ex dc de re dl fu gc (Some viewEngine) dh)
  end.

(** The text shown for a cause. *)
Definition shown (viewError : error) : string :=
  first (strings_ToLower (Error viewError)).

(** The default-handler block shared by Handle and HandleStaticWithData:
    the error key is written first, the handler's entries after it. *)
Definition default_phase (lr : LayoutRenderer) (w : ResponseWriter)
    : outcome (gomap value * ResponseWriter) :=
  let viewData : gomap value := make in
  match defaultHandler lr with
  | Some handler =>
    let '(defaultData, err, w) := handler w in
    viewData ←
      match err with
      | Some err =>
        match errors_Unwrap err with
        | Some viewError =>
          mapassign viewData (errorKey lr) (VString (shown viewError))
        | None => mapassign viewData (errorKey lr) (VString (defaultError lr))
        end
      | None => mret viewData
      end;
    viewData ← range_assign defaultData viewData;
    mret (viewData, w)
  | None => mret (viewData, w)
  end.

(** The view handler's error block of Handle. *)
Definition view_error (lr : LayoutRenderer) (viewData : gomap value)
    (err : option error) : outcome (gomap value) :=
  match err with
  | Some err =>
    match errors_Unwrap err with
    | Some viewError =>
      if negb (is_nil (mapaccess viewData (errorKey lr)))
      then mapassign viewData (errorKey lr)
             (VString (Sprintf_s_space_s
                         (fmt_s (mapaccess viewData (errorKey lr)))
                         (shown viewError)))
      else mapassign viewData (errorKey lr) (VString (shown viewError))
    | None => mapassign viewData (errorKey lr) (VString (defaultError lr))
    end
  | None => mret viewData
  end.

(** Handle up to the render call: the context handed to the engine. *)
Definition Handle_context (lr : LayoutRenderer) (viewHandlerFunc : ViewHandlerFunc)
    (w : ResponseWriter) : outcome (M * ResponseWriter) :=
  '(viewData, w) ← default_phase lr w;
  let '(data, err, w) := viewHandlerFunc w in
  viewData ← view_error lr viewData err;
  data ← range_assign viewData data;
  mret (data, w).

(** The render call and the fallback on its failure. *)
Definition render (lr : LayoutRenderer) (view : string) (data : gomap value)
    (w : ResponseWriter) : outcome ResponseWriter :=
  match viewEngine lr with
  | None =>
    Panic "runtime error: invalid memory address or nil pointer dereference"
  | Some engine =>
    let '(w, err) := ViewEngine_Render engine w StatusOK view data in
    match err with
    | Some _ => mret (Fprintf w (renderError lr))
    | None => mret w
    end
  end.

Definition Handle (lr : LayoutRenderer) (view : string)
    (viewHandlerFunc : ViewHandlerFunc) (w : ResponseWriter)
    : outcome ResponseWriter :=
  '(data, w) ← Handle_context lr viewHandlerFunc w;
  render lr view data w.

Definition HandleStaticWithData_context (lr : LayoutRenderer) (data : M)
    (w : ResponseWriter) : outcome (gomap value * ResponseWriter) :=
  '(viewData, w) ← default_phase lr w;
  viewData ← range_assign data viewData;
  mret (viewData, w).

Definition HandleStaticWithData (lr : LayoutRenderer) (view : string) (data : M)
    (w : ResponseWriter) : outcome ResponseWriter :=
  '(viewData, w) ← HandleStaticWithData_context lr data w;
  render lr view viewData w.

Definition HandleStatic (lr : LayoutRenderer) (view : string)
    : ResponseWriter -> outcome ResponseWriter :=
  HandleStaticWithData lr view None.

Definition StaticView : ViewHandlerFunc := fun w => (make, None, w).

(** What the default provider returned; nothing when none is configured. *)
Definition default_result (lr : LayoutRenderer) (w : ResponseWriter)
    : M * option error * ResponseWriter :=
  match defaultHandler lr with
  | Some handler => handler w
  | None => (None, None, w)
  end.


(** What a classified failure of the default provider leaves at the error
    key before the provider's own entries are written. *)
Definition error_entry (lr : LayoutRenderer) (c : classified) : gmap string value :=
  match c with
  | NoError => ∅
  | UserFacing message => {[ errorKey lr := VString message ]}
  | Internal _ => {[ errorKey lr := VString (defaultError lr) ]}
  end.

(** What a classified failure of the view handler does to the map assembled
    so far: a message is appended, after a space, to a value that is there
    and not nil; the default error message replaces whatever is there. *)
Definition after_view_error (lr : LayoutRenderer) (viewData : gmap string value)
    (c : classified) : gmap string value :=
  match c with
  | NoError => viewData
  | UserFacing message =>
    let before := default VNil (viewData !! errorKey lr) in
    <[ errorKey lr :=
         VString (if is_nil before then message
                  else fmt_s before +:+ " " +:+ message) ]> viewData
  | Internal _ => <[ errorKey lr := VString (defaultError lr) ]> viewData
  end.
End WithCollaborators.

End Layout.

(** ** The render.go generation: a sequence of strings at the error key *)

Module RenderGo.
Export Go.

Definition D : Type := gomap value.

(** A data function reads the request and may write to the response. *)
Definition Data : Type := ResponseWriter -> D * option error * ResponseWriter.

(** Render: a view and its data functions give an http.HandlerFunc. *)
Definition Render : Type :=
  string -> list Data -> ResponseWriter -> outcome ResponseWriter.


Record renderer : Type := mkRenderer {
    errorKey : string;
    root : string;
    layout : string;
    layouts : string;
    partials : string;
    extension : string;
    disableCache : bool;
    renderError : string;
    delims : goview_Delims;
    funcs : gomap Func;
    goviewConfig : option goview_Config;
    viewEngine : option goview_Config;
    defaultData : option Data;
    debug : bool
  }.

Inductive Option : Type :=
  | Debug (enable : bool)
  | DefaultData (data : option Data)
  | ErrorKey (key : string)
  | TemplatesPath (templatesPath : string)
  | LayoutsPath (layouts : string)
  | PartialsPath (partials : string)
  | Layout (layout : string)
  | Extension (extension : string)
  | DisableCache (disableCache : bool)
  | Delimiters (left_ right_ : string)
  | AddFuncs (funcMap : gomap Func)
  | RenderError (error : string).

Definition apply_option (opt : Option) (lr : renderer) : renderer :=
  let 'mkRenderer ek ro la ls pa ex dc re dl fu gc ve dd db := lr in
  match opt with
  | Debug enable => mkRenderer ek ro la ls pa ex dc re dl fu gc ve dd enable
  | DefaultData data => mkRenderer ek ro la ls pa ex dc re dl fu gc ve data db
  | ErrorKey key => mkRenderer key ro la ls pa ex dc re dl fu gc ve dd db
  | TemplatesPath templatesPath =>
    mkRenderer ek templatesPath la ls pa ex dc re dl fu gc ve dd db
  | LayoutsPath layouts => mkRenderer ek ro la layouts pa ex dc re dl fu gc ve dd db
  | PartialsPath partials => mkRenderer ek ro la ls partials ex dc re dl fu gc ve dd db
  | Layout layout => mkRenderer ek ro layout ls pa ex dc re dl fu gc ve dd db
  | Extension extension =>
    mkRenderer ek ro la ls pa (Sprintf_dot_s extension) dc re dl fu gc ve dd db
  | DisableCache disableCache =>
    mkRenderer ek ro la ls pa ex disableCache re dl fu gc ve dd db
  | Delimiters left_ right_ =>
    mkRenderer ek ro la ls pa ex dc re {| Left := left_; Right := right_ |}
      fu gc ve dd db
  | AddFuncs funcMap => mkRenderer ek ro la ls pa ex dc re dl funcMap gc ve dd db
  | RenderError error => mkRenderer ek ro la ls pa ex dc error dl fu gc ve dd db
  end.

(** The field an option writes, what it writes there, and how the field
    is read back. *)
Inductive field : Type :=
  | F_debug | F_defaultData | F_errorKey | F_root | F_layouts | F_partials
  | F_layout | F_extension | F_disableCache | F_delims | F_funcs | F_renderError.

Inductive setting : Type :=
  | SString (s : string)
  | SBool (b : bool)
  | SDelims (d : goview_Delims)
  | SFuncs (f : gomap Func)
  | SData (f : option Data).

Definition field_of (opt : Option) : field :=
  match opt with
  | Debug _ => F_debug
  | DefaultData _ => F_defaultData
  | ErrorKey _ => F_errorKey
  | TemplatesPath _ => F_root
  | LayoutsPath _ => F_layouts
  | PartialsPath _ => F_partials
  | Layout _ => F_layout
  | Extension _ => F_extension
  | DisableCache _ => F_disableCache
  | Delimiters _ _ => F_delims
  | AddFuncs _ => F_funcs
  | RenderError _ => F_renderError
  end.

Definition written (opt : Option) : setting :=
  match opt with
  | Debug enable => SBool enable
  | DefaultData data => SData data
  | ErrorKey key => SString key
  | TemplatesPath templatesPath => SString templatesPath
  | LayoutsPath layouts => SString layouts
  | PartialsPath partials => SString partials
  | Layout layout => SString layout
  | Extension extension => SString (Sprintf_dot_s extension)
  | DisableCache disableCache => SBool disableCache
  | Delimiters left_ right_ => SDelims {| Left := left_; Right := right_ |}
  | AddFuncs funcMap => SFuncs funcMap
  | RenderError error => SString error
  end.

Definition read (f : field) (lr : renderer) : setting :=
  match f with
  | F_debug => SBool (debug lr)
  | F_defaultData => SData (defaultData lr)
  | F_errorKey => SString (errorKey lr)
  | F_root => SString (root lr)
  | F_layouts => SString (layouts lr)
  | F_partials => SString (partials lr)
  | F_layout => SString (layout lr)
  | F_extension => SString (extension lr)
  | F_disableCache => SBool (disableCache lr)
  | F_delims => SDelims (delims lr)
  | F_funcs => SFuncs (funcs lr)
  | F_renderError => SString (renderError lr)
  end.

Definition defaults : renderer := {|
    errorKey := "errors";
    root := "templates";
    layout := "index";
    layouts := "layouts";
    partials := "partials";
    extension := ".html";
    disableCache := false;
    renderError := "Something went wrong.";
    delims := {| Left := "{{"; Right := "}}" |};
    funcs := None;
    goviewConfig := None;
    viewEngine := None;
    defaultData := None;
    debug := false
  |}.

Definition apply_options (opts : list Option) (lr : renderer) : renderer :=
  fold_left (fun lr opt => apply_option opt lr) opts lr.

(** The fields New reads when it lists the partials and builds the
    configuration for goview.New. *)
Definition is_engine_field (f : field) : bool :=
  match f with
  | F_root | F_partials | F_extension | F_layouts | F_layout | F_disableCache => true
  | _ => false
  end.

(** Two renderers agree off the delimiters when running one fixed Delimiters
    option on both makes them equal. *)
Definition agree_off_delims (a b : renderer) : Prop :=
  apply_option (Delimiters "" "") a = apply_option (Delimiters "" "") b.

Section WithCollaborators.
Context `{CaseTables} `{Collaborators}.

Definition allFuncs (lr : renderer) : gmap string Func :=
  copy_entries (Some sprig_FuncMap) (copy_entries (funcs lr) ∅).

Definition engine_config (lr : renderer) (discovered : list string)
      : goview_Config := {|
    Root := root lr;
    Extension_ := extension lr;
    Master := Sprintf_s_slash_s (layouts lr) (layout lr);
    Partials := discovered;
    Funcs := Some sprig_FuncMap;
    DisableCache_ := disableCache lr;
    Delims := {| Left := ""; Right := "" |}
  |}.

(** New up to the closure it returns. *)
Definition New_renderer (opts : list Option) : result renderer :=
  let lr := apply_options opts defaults in
  let lr := let 'mkRenderer ek ro la ls pa ex dc re dl _ gc ve dd db := lr in
            mkRenderer ek ro la ls pa ex dc re dl (Some (allFuncs lr)) gc ve dd db in
  match ioutil_ReadDir (Sprintf_s_slash_s (root lr) (partials lr)) with
  | Failed err => Failed err
  | Ok fileInfo =>
    let discovered := discover_partials (partials lr) (extension lr) fileInfo in
    let viewEngine := engine_config lr discovered in
    let 'mkRenderer ek ro la ls pa ex dc re dl fu gc _ dd db := lr in
    Ok (mkRenderer ek ro la ls pa ex dc re dl fu gc (Some viewEngine) dd db)
  end.

(** The error block written out twice in the handler: a wrapped cause is
    appended to errStrings, anything else is only logged. *)
Definition record_error (errStrings : list string) (err : option error)
    : list string :=
  match err with
  | Some err =>
    match errors_Unwrap err with
    | Some viewError =>
      errStrings ++ [first (strings_ToLower (Error viewError))]
    | None => errStrings
    end
  | None => errStrings
  end.

(** for _, dataFunc := range dataFuncs { ... } *)
Fixpoint run_dataFuncs (dataFuncs : list Data) (viewData : gomap value)
    (errStrings : list string) (w : ResponseWriter)
    : outcome (gomap value * list string * ResponseWriter) :=
  match dataFuncs with
  | [] => mret (viewData, errStrings, w)
  | dataFunc :: rest =>
    let '(data, err, w) := dataFunc w in
    let errStrings := record_error errStrings err in
    viewData ← range_assign data viewData;
    run_dataFuncs rest viewData errStrings w
  end.

(** The handler up to the render call. *)
Definition handler_context (lr : renderer) (dataFuncs : list Data)
    (w : ResponseWriter) : outcome (gomap value * ResponseWriter) :=
  let viewData : gomap value := make in
  let errStrings : list string := [] in
  '(viewData, errStrings, w) ←
    match defaultData lr with
    | Some defaultFunc =>
      let '(defaultData, err, w) := defaultFunc w in
      let errStrings := record_error errStrings err in
      viewData ← range_assign defaultData viewData;
      mret (viewData, errStrings, w)
    | None => mret (viewData, errStrings, w)
    end;
  '(viewData, errStrings, w) ← run_dataFuncs dataFuncs viewData errStrings w;
  viewData ←
    (if (0 <? List.length errStrings)%nat
     then mapassign viewData (errorKey lr) (VStrings errStrings)
     else mret viewData);
  mret (viewData, w).

(** The handler; the log lines, also the debug trace on success, leave
    the response alone. The render call assigns its error to the err that
    New declared, a variable the requests of one renderer share; a request
    is taken here on its own, where that variable holds the error of its
    own render call. *)
Definition handler (lr : renderer) : Render := fun view dataFuncs w =>
  '(viewData, w) ← handler_context lr dataFuncs w;
  match viewEngine lr with
  | None =>
    Panic "runtime error: invalid memory address or nil pointer dereference"
  | Some engine =>
    let '(w, err) := ViewEngine_Render engine w StatusOK view viewData in
    match err with
    | Some _ => mret (Fprintf w (renderError lr))
    | None => mret w
    end
  end.

Definition New (opts : list Option) : result Render :=
  match New_renderer opts with
  | Ok lr => Ok (handler lr)
  | Failed err => Failed err
  end.

(** The accumulating merge in the words of the specification. The providers
    of a request are the default provider, when there is one, and then the
    per-call providers in order. *)
Definition providers (lr : renderer) (dataFuncs : list Data) : list Data :=
  match defaultData lr with
  | Some defaultFunc => defaultFunc :: dataFuncs
  | None => dataFuncs
  end.

(** Every provider runs, in order, whatever the earlier ones returned. *)
Fixpoint run_all (ps : list Data) (w : ResponseWriter)
    : list (D * option error) * ResponseWriter :=
  match ps with
  | [] => ([], w)
  | p :: rest =>
    let '(data, err, w) := p w in
    let '(results, w) := run_all rest w in
    ((data, err) :: results, w)
  end.

(** Later output is written over earlier output, key by key. *)
Definition merged (results : list (D * option error)) : gmap string value :=
  fold_left (fun acc r => entries (fst r) ∪ acc) results ∅.

(** The user-facing messages, one per classified failure, in order. *)
Definition messages (results : list (D * option error)) : list string :=
  omap (fun r => user_message (classify (snd r))) results.

End WithCollaborators.

End RenderGo.

(** ** Concrete collaborators and providers *)

Module Scenario.
Export Go.

(** Case tables that no ASCII text consults. *)
Definition ascii_tables : CaseTables :=
  {| To_UpperCase := fun r => r; To_LowerCase := fun r => r |}.

Definition baseline : gmap string Func :=
  {[ "upper" := FuncImpl 0; "lower" := FuncImpl 1 ]}.

Definition listing (path : string) : result (list string) :=
  if decide (path = "templates/partials")
  then Ok ["header.html"; "footer.html"; "notes.txt"]
  else Failed (errors_New "open: no such file or directory").

(** An engine whose render call fails before writing anything. *)
Definition failing_engine : Collaborators := {|
    sprig_FuncMap := baseline;
    ioutil_ReadDir := listing;
    ViewEngine_Render := fun _ w _ _ _ => (w, Some (errors_New "template not found"))
  |}.

(** An engine that writes a page and succeeds. *)
Definition working_engine : Collaborators := {|
    sprig_FuncMap := baseline;
    ioutil_ReadDir := listing;
    ViewEngine_Render := fun _ w _ view _ => (w +:+ "<html>" +:+ view +:+ "</html>", None)
  |}.

Definition provides (data : gomap value) (err : option error)
    : ResponseWriter -> gomap value * option error * ResponseWriter :=
  fun w => (data, err, w).

Definition wrapped (text : string) : error :=
  Errorf_w ("error in dashboard, " +:+ text) (errors_New text).
End Scenario.

Import Go.

(** ** Go maps: what the range-and-assign loops compute *)

Section MapLoops.
Context {V : Type}.
Implicit Types (src : gomap V) (g : gmap string V).

Lemma range_assign_made src g :
  range_assign src (Some g) = Done (Some (entries src ∪ g)).
Proof.
  unfold range_assign.
  apply (map_fold_weak_ind (fun r m => r = Done (Some (m ∪ g)))).
  - by rewrite (left_id_L ∅ (∪)).
  - intros k v m r Hk ->. simpl. by rewrite insert_union_l.
Qed.

Lemma range_assign_nil src :
  range_assign src None =
  if decide (entries src = ∅) then Done None
  else Panic "assignment to entry in nil map".
Proof.
  unfold range_assign.
  set (P := fun (r : outcome (gomap V)) (m : gmap string V) =>
    r = if decide (m = ∅) then Done None
        else Panic "assignment to entry in nil map").
  refine (map_fold_weak_ind P _ _ _ _ (entries src)); unfold P.
  - by rewrite decide_True.
  - intros k v m r Hk ->.
    rewrite (decide_False (P := <[k:=v]> m = ∅)) by apply insert_non_empty.
    by destruct (decide (m = ∅)).
Qed.

Lemma copy_entries_union src g : copy_entries src g = entries src ∪ g.
Proof.
  unfold copy_entries.
  apply (map_fold_weak_ind (fun r m => r = m ∪ g)).
  - by rewrite (left_id_L ∅ (∪)).
  - intros k v m r Hk ->. by rewrite insert_union_l.
Qed.
End MapLoops.

(** ** Byte strings: suffixes and round trips *)

Section Strings.
Implicit Types (s stem ext : string).

Lemma string_length_app s ext :
  String.length (s +:+ ext) = (String.length s + String.length ext)%nat.
Proof. induction s as [|c s IH]; simpl; [done | by rewrite IH]. Qed.

Lemma substring_whole s : substring 0 (String.length s) s = s.
Proof. induction s as [|c s IH]; simpl; [done | by rewrite IH]. Qed.

Lemma substring_app_suffix stem ext :
  substring (String.length stem) (String.length ext) (stem +:+ ext) = ext.
Proof.
  induction stem as [|c stem IH]; simpl; [apply substring_whole | exact IH].
Qed.

Lemma substring_app_stem stem ext :
  substring 0 (String.length stem) (stem +:+ ext) = stem.
Proof.
  induction stem as [|c stem IH]; simpl.
  - by destruct ext.
  - by rewrite IH.
Qed.

Lemma substring_split s (n : nat) :
  (n <= String.length s)%nat ->
  s = substring 0 n s +:+ substring n (String.length s - n) s.
Proof.
  revert n. induction s as [|c s IH]; intros [|n] Hn; simpl in *.
  - done.
  - lia.
  - by rewrite substring_whole.
  - change (String c s = String c (substring 0 n s +:+
                                     substring n (String.length s - n) s)).
    f_equal. apply IH. lia.
Qed.

Lemma HasSuffix_spec s ext :
  HasSuffix s ext = true <-> exists stem, s = stem +:+ ext.
Proof.
  unfold HasSuffix. rewrite andb_true_iff, Nat.leb_le, String.eqb_eq. split.
  - intros [Hle Hsub].
    exists (substring 0 (String.length s - String.length ext) s).
    pose proof (substring_split s (String.length s - String.length ext)) as Hs.
    replace (String.length s - (String.length s - String.length ext))%nat
      with (String.length ext) in Hs by lia.
    rewrite Hsub in Hs. apply Hs. lia.
  - intros [stem ->]. rewrite string_length_app. split; [lia|].
    replace (String.length stem + String.length ext - String.length ext)%nat
      with (String.length stem) by lia.
    apply substring_app_suffix.
Qed.

Lemma TrimSuffix_app stem ext : TrimSuffix (stem +:+ ext) ext = stem.
Proof.
  unfold TrimSuffix.
  assert (HasSuffix (stem +:+ ext) ext = true) as -> by (apply HasSuffix_spec; eauto).
  rewrite string_length_app.
  replace (String.length stem + String.length ext - String.length ext)%nat
    with (String.length stem) by lia.
  apply substring_app_stem.
Qed.

(** A string that is not empty has a first rune: the last branch of
    [first] is never taken. *)
Lemma runes_nonempty s : s <> "" -> runes s <> [].
Proof.
  destruct s as [|c s]; [done|]. intros _. unfold runes, bytes_of.
  cbn [list_ascii_of_string map runes_from].
  by destruct (DecodeRune _).
Qed.

Lemma string_of_bytes_of s : string_of (bytes_of s) = s.
Proof.
  unfold string_of, bytes_of. rewrite map_map.
  rewrite (map_ext _ (fun a => a)).
  - rewrite map_id. apply string_of_list_ascii_of_string.
  - intros a. rewrite N2Z.id. apply ascii_N_embedding.
Qed.
End Strings.

(** ** Partial discovery as a filter followed by a map *)

Lemma discover_partials_acc partials ext names acc :
  fold_left
    (fun acc name =>
       if negb (HasSuffix name ext) then acc
       else acc ++ [Sprintf_s_slash_s partials (TrimSuffix name ext)])
    names acc
  = acc ++ map (fun name => Sprintf_s_slash_s partials (TrimSuffix name ext))
             (List.filter (fun name => HasSuffix name ext) names).
Proof.
  revert acc. induction names as [|name names IH]; intros acc; simpl.
  - by rewrite app_nil_r.
  - rewrite IH. destruct (HasSuffix name ext); simpl; [|done].
    by rewrite <- app_assoc.
Qed.

Lemma discover_partials_filter_map partials ext names :
  discover_partials partials ext names
  = map (fun name => Sprintf_s_slash_s partials (TrimSuffix name ext))
      (List.filter (fun name => HasSuffix name ext) names).
Proof. unfold discover_partials. by rewrite discover_partials_acc. Qed.

Lemma app_suffix_cancel (stem1 stem2 ext : string) :
  stem1 +:+ ext = stem2 +:+ ext -> stem1 = stem2.
Proof.
  intros Heq.
  assert (String.length stem1 = String.length stem2) as Hlen.
  { apply (f_equal String.length) in Heq. rewrite !string_length_app in Heq. lia. }
  rewrite <- (substring_app_stem stem1 ext), Heq, Hlen.
  apply substring_app_stem.
Qed.

Lemma discover_partials_cons partials ext name names :
  discover_partials partials ext (name :: names)
  = (if HasSuffix name ext
     then [Sprintf_s_slash_s partials (TrimSuffix name ext)] else [])
    ++ discover_partials partials ext names.
Proof.
  rewrite !discover_partials_filter_map. simpl.
  by destruct (HasSuffix name ext).
Qed.

Lemma discover_partials_meets_spec partials ext names :
  partial_set partials ext names (discover_partials partials ext names).
Proof.
  induction names as [|name names IH].
  - constructor.
  - rewrite discover_partials_cons.
    destruct (HasSuffix name ext) eqn:Hsuf.
    + apply HasSuffix_spec in Hsuf as [stem ->].
      rewrite TrimSuffix_app. simpl. by constructor.
    + simpl. apply partial_set_skip; [|done].
      intros stem ->.
      assert (HasSuffix (stem +:+ ext) ext = true) by (apply HasSuffix_spec; eauto).
      congruence.
Qed.

Lemma partial_set_functional partials ext names out1 out2 :
  partial_set partials ext names out1 ->
  partial_set partials ext names out2 -> out1 = out2.
Proof.
  intros H1. revert out2.
  induction H1 as [|stem names out H1 IH|name names out Hno H1 IH];
    intros out2 H2; inversion H2; subst.
  - done.
  - match goal with E : _ +:+ ext = _ +:+ ext |- _ =>
      apply app_suffix_cancel in E; subst end.
    f_equal. by apply IH.
  - exfalso. match goal with E : forall stem, _ <> _ |- _ => by eapply E end.
  - exfalso. by eapply Hno.
  - by apply IH.
Qed.

(** ** Construction: what New resolves and hands to the engine *)

Section Construction.
Context `{CaseTables} `{Collaborators}.

Lemma Layout_New_unfold (opts : list Layout.LayoutRendererOption) :
  let d := Layout.apply_options opts Layout.defaults in
  Layout.New opts =
  match ioutil_ReadDir (Sprintf_s_slash_s (Layout.root d) (Layout.partials d)) with
  | Failed err => Failed err
  | Ok fileInfo =>
    Ok (Layout.mkLayoutRenderer
          (Layout.errorKey d) (Layout.root d) (Layout.layout d) (Layout.layouts d)
          (Layout.partials d) (Layout.extension d) (Layout.disableCache d)
          (Layout.defaultError d) (Layout.renderError d) (Layout.delims d)
          (Some (Layout.allFuncs d)) (Layout.goviewConfig d)
          (Some (Layout.engine_config d
                   (discover_partials (Layout.partials d) (Layout.extension d) fileInfo)))
          (Layout.defaultHandler d))
  end.
Proof.
  unfold Layout.New. simpl. destruct (Layout.apply_options opts Layout.defaults).
  simpl. by destruct (ioutil_ReadDir _).
Qed.

Lemma RenderGo_New_unfold (opts : list RenderGo.Option) :
  let lr := RenderGo.apply_options opts RenderGo.defaults in
  RenderGo.New_renderer opts =
  match ioutil_ReadDir (Sprintf_s_slash_s (RenderGo.root lr) (RenderGo.partials lr)) with
  | Failed err => Failed err
  | Ok fileInfo =>
    Ok (RenderGo.mkRenderer
          (RenderGo.errorKey lr) (RenderGo.root lr) (RenderGo.layout lr)
          (RenderGo.layouts lr) (RenderGo.partials lr) (RenderGo.extension lr)
          (RenderGo.disableCache lr) (RenderGo.renderError lr) (RenderGo.delims lr)
          (Some (RenderGo.allFuncs lr)) (RenderGo.goviewConfig lr)
          (Some (RenderGo.engine_config lr
                   (discover_partials (RenderGo.partials lr) (RenderGo.extension lr)
                      fileInfo)))
          (RenderGo.defaultData lr) (RenderGo.debug lr))
  end.
Proof.
  unfold RenderGo.New_renderer. simpl.
  destruct (RenderGo.apply_options opts RenderGo.defaults).
  simpl. by destruct (ioutil_ReadDir _).
Qed.

(** C9. Whenever the directory listing is obtained, the partials handed to
    the engine are exactly the entries whose name ends with the configured
    extension, each as partials-dir/name-without-extension, in listing order;
    this holds for New of both generations, and no other list meets that
    description. *)
Theorem partial_discovery_exact
    (opts1 : list Layout.LayoutRendererOption) (opts2 : list RenderGo.Option)
    (names1 names2 : list string) :
  let d := Layout.apply_options opts1 Layout.defaults in
  let lr := RenderGo.apply_options opts2 RenderGo.defaults in
  ioutil_ReadDir (Sprintf_s_slash_s (Layout.root d) (Layout.partials d)) = Ok names1 ->
  ioutil_ReadDir (Sprintf_s_slash_s (RenderGo.root lr) (RenderGo.partials lr)) = Ok names2 ->
  (exists d' cfg,
      Layout.New opts1 = Ok d' /\ Layout.viewEngine d' = Some cfg /\
      partial_set (Layout.partials d) (Layout.extension d) names1 (Partials cfg) /\
      forall out,
        partial_set (Layout.partials d) (Layout.extension d) names1 out ->
        out = Partials cfg) /\
  (exists lr' cfg,
      RenderGo.New_renderer opts2 = Ok lr' /\ RenderGo.viewEngine lr' = Some cfg /\
      partial_set (RenderGo.partials lr) (RenderGo.extension lr) names2 (Partials cfg) /\
      forall out,
        partial_set (RenderGo.partials lr) (RenderGo.extension lr) names2 out ->
        out = Partials cfg).
Proof.
  intros d lr Hdir1 Hdir2. split.
  - pose proof (Layout_New_unfold opts1) as Hnew. simpl in Hnew.
    fold d in Hnew. rewrite Hdir1 in Hnew.
    eexists _, _. split; [exact Hnew|]. split; [reflexivity|]. simpl. split.
    + apply discover_partials_meets_spec.
    + intros out Hout.
      eapply partial_set_functional; [exact Hout | apply discover_partials_meets_spec].
  - pose proof (RenderGo_New_unfold opts2) as Hnew. simpl in Hnew.
    fold lr in Hnew. rewrite Hdir2 in Hnew.
    eexists _, _. split; [exact Hnew|]. split; [reflexivity|]. simpl. split.
    + apply discover_partials_meets_spec.
    + intros out Hout.
      eapply partial_set_functional; [exact Hout | apply discover_partials_meets_spec].
Qed.

(** *** Options *)

Lemma Layout_apply_options_app (opts1 opts2 : list Layout.LayoutRendererOption) d :
  Layout.apply_options (opts1 ++ opts2) d
  = Layout.apply_options opts2 (Layout.apply_options opts1 d).
Proof. apply fold_left_app. Qed.

Lemma RenderGo_apply_options_app (opts1 opts2 : list RenderGo.Option) lr :
  RenderGo.apply_options (opts1 ++ opts2) lr
  = RenderGo.apply_options opts2 (RenderGo.apply_options opts1 lr).
Proof. apply fold_left_app. Qed.

Lemma Layout_option_overwrites o1 o2 d :
  Layout.field_of o1 = Layout.field_of o2 ->
  Layout.apply_option o2 (Layout.apply_option o1 d) = Layout.apply_option o2 d.
Proof. destruct d, o1, o2; simpl; intros Hf; try discriminate Hf; reflexivity. Qed.

Lemma RenderGo_option_overwrites o1 o2 lr :
  RenderGo.field_of o1 = RenderGo.field_of o2 ->
  RenderGo.apply_option o2 (RenderGo.apply_option o1 lr) = RenderGo.apply_option o2 lr.
Proof. destruct lr, o1, o2; simpl; intros Hf; try discriminate Hf; reflexivity. Qed.

Lemma Layout_option_writes o d :
  Layout.read (Layout.field_of o) (Layout.apply_option o d) = Layout.written o.
Proof. by destruct d, o. Qed.

Lemma RenderGo_option_writes o lr :
  RenderGo.read (RenderGo.field_of o) (RenderGo.apply_option o lr) = RenderGo.written o.
Proof. by destruct lr, o. Qed.

Lemma Layout_option_frame o f d :
  Layout.field_of o <> f ->
  Layout.read f (Layout.apply_option o d) = Layout.read f d.
Proof. destruct d, o, f; simpl; intros Hf; try reflexivity; by destruct Hf. Qed.

Lemma RenderGo_option_frame o f lr :
  RenderGo.field_of o <> f ->
  RenderGo.read f (RenderGo.apply_option o lr) = RenderGo.read f lr.
Proof. destruct lr, o, f; simpl; intros Hf; try reflexivity; by destruct Hf. Qed.

Lemma Layout_New_resolved (opts1 opts2 : list Layout.LayoutRendererOption) :
  Layout.apply_options opts1 Layout.defaults = Layout.apply_options opts2 Layout.defaults ->
  Layout.New opts1 = Layout.New opts2.
Proof. unfold Layout.New. by intros ->. Qed.

Lemma RenderGo_New_resolved (opts1 opts2 : list RenderGo.Option) :
  RenderGo.apply_options opts1 RenderGo.defaults
  = RenderGo.apply_options opts2 RenderGo.defaults ->
  RenderGo.New_renderer opts1 = RenderGo.New_renderer opts2.
Proof. unfold RenderGo.New_renderer. by intros ->. Qed.

Lemma Layout_later_options_frame f after d :
  Forall (fun o' => Layout.field_of o' <> f) after ->
  Layout.read f (Layout.apply_options after d) = Layout.read f d.
Proof.
  intros Hafter. revert d.
  induction Hafter as [|o' after Ho' _ IH]; intros d; simpl; [done|].
  rewrite IH. by apply Layout_option_frame.
Qed.

Lemma RenderGo_later_options_frame f after lr :
  Forall (fun o' => RenderGo.field_of o' <> f) after ->
  RenderGo.read f (RenderGo.apply_options after lr) = RenderGo.read f lr.
Proof.
  intros Hafter. revert lr.
  induction Hafter as [|o' after Ho' _ IH]; intros lr; simpl; [done|].
  rewrite IH. by apply RenderGo_option_frame.
Qed.

Lemma Layout_read_last_writer before o after d :
  Forall (fun o' => Layout.field_of o' <> Layout.field_of o) after ->
  Layout.read (Layout.field_of o) (Layout.apply_options (before ++ o :: after) d)
  = Layout.written o.
Proof.
  intros Hafter. rewrite Layout_apply_options_app.
  cbn [Layout.apply_options fold_left]. fold (Layout.apply_options after).
  rewrite Layout_later_options_frame by done. apply Layout_option_writes.
Qed.

Lemma RenderGo_read_last_writer before p after lr :
  Forall (fun p' => RenderGo.field_of p' <> RenderGo.field_of p) after ->
  RenderGo.read (RenderGo.field_of p)
    (RenderGo.apply_options (before ++ p :: after) lr)
  = RenderGo.written p.
Proof.
  intros Hafter. rewrite RenderGo_apply_options_app.
  cbn [RenderGo.apply_options fold_left]. fold (RenderGo.apply_options after).
  rewrite RenderGo_later_options_frame by done. apply RenderGo_option_writes.
Qed.

(** What New returns, read off the configuration the options resolve to:
    on failure the error of the listing, on success a renderer whose
    fields read as resolved, the function table apart, with an engine
    built on the resolved extension. *)
Lemma Layout_New_outcome (l : list Layout.LayoutRendererOption) :
  let d0 := Layout.apply_options l Layout.defaults in
  match Layout.New l with
  | Ok d =>
    (forall f, f <> Layout.F_funcs -> Layout.read f d = Layout.read f d0) /\
    Layout.funcs d = Some (Layout.allFuncs d0) /\
    exists cfg, Layout.viewEngine d = Some cfg /\
                Extension_ cfg = Layout.extension d0
  | Failed err =>
    ioutil_ReadDir (Sprintf_s_slash_s (Layout.root d0) (Layout.partials d0))
    = Failed err
  end.
Proof.
  intros d0. pose proof (Layout_New_unfold l) as E. cbv zeta in E.
  fold d0 in E. rewrite E. clear E.
  destruct (ioutil_ReadDir _) as [fileInfo|err]; [|done].
  split; [|split; [done|by eexists]]. intros f Hf. by destruct f.
Qed.

Lemma RenderGo_New_outcome (l : list RenderGo.Option) :
  let lr0 := RenderGo.apply_options l RenderGo.defaults in
  match RenderGo.New_renderer l with
  | Ok lr =>
    RenderGo.New l = Ok (RenderGo.handler lr) /\
    (forall f, f <> RenderGo.F_funcs -> RenderGo.read f lr = RenderGo.read f lr0) /\
    RenderGo.funcs lr = Some (RenderGo.allFuncs lr0) /\
    exists cfg, RenderGo.viewEngine lr = Some cfg /\
                Extension_ cfg = RenderGo.extension lr0
  | Failed err =>
    RenderGo.New l = Failed err /\
    ioutil_ReadDir (Sprintf_s_slash_s (RenderGo.root lr0) (RenderGo.partials lr0))
    = Failed err
  end.
Proof.
  intros lr0. unfold RenderGo.New.
  pose proof (RenderGo_New_unfold l) as E. cbv zeta in E.
  fold lr0 in E. rewrite E. clear E.
  destruct (ioutil_ReadDir _) as [fileInfo|err]; [|done].
  split; [done|]. split; [|split; [done|by eexists]]. intros f Hf. by destruct f.
Qed.

(** C8. Options run in order on the defaults; when two consecutive options
    write the same field, the configuration is the one the second option
    alone would give, the field reads back the second option's value, and
    New cannot tell the difference. Wherever an option stands in the list,
    its field reads back its value when no later option writes that field.
    Two Extension options keep the last extension. The renderer New returns
    carries these values: when the last option to write a field is O2, New
    either fails with the error of the listing of the resolved root and
    partials, or returns a renderer in which that field reads O2's value
    (for AddFuncs: whose function table is built from O2's map), and after
    two Extension options the renderer and its engine hold the second
    extension. Both generations; in render.go the handler New returns is
    the handler over that renderer. *)
Theorem options_last_write_wins
    (opts : list Layout.LayoutRendererOption) (o1 o2 : Layout.LayoutRendererOption)
    (ropts : list RenderGo.Option) (p1 p2 : RenderGo.Option) :
  Layout.field_of o1 = Layout.field_of o2 ->
  RenderGo.field_of p1 = RenderGo.field_of p2 ->
  (Layout.apply_options (opts ++ [o1; o2]) Layout.defaults
   = Layout.apply_option o2 (Layout.apply_options opts Layout.defaults) /\
   Layout.read (Layout.field_of o2)
     (Layout.apply_options (opts ++ [o1; o2]) Layout.defaults) = Layout.written o2 /\
   Layout.New (opts ++ [o1; o2]) = Layout.New (opts ++ [o2])) /\
  (RenderGo.apply_options (ropts ++ [p1; p2]) RenderGo.defaults
   = RenderGo.apply_option p2 (RenderGo.apply_options ropts RenderGo.defaults) /\
   RenderGo.read (RenderGo.field_of p2)
     (RenderGo.apply_options (ropts ++ [p1; p2]) RenderGo.defaults)
   = RenderGo.written p2 /\
   RenderGo.New_renderer (ropts ++ [p1; p2]) = RenderGo.New_renderer (ropts ++ [p2])) /\
  (forall middle after,
      Forall (fun o' => Layout.field_of o' <> Layout.field_of o2) after ->
      Layout.read (Layout.field_of o2)
        (Layout.apply_options (opts ++ o1 :: middle ++ o2 :: after) Layout.defaults)
      = Layout.written o2) /\
  (forall middle after,
      Forall (fun p' => RenderGo.field_of p' <> RenderGo.field_of p2) after ->
      RenderGo.read (RenderGo.field_of p2)
        (RenderGo.apply_options (ropts ++ p1 :: middle ++ p2 :: after)
           RenderGo.defaults)
      = RenderGo.written p2) /\
  (forall a b,
      Layout.extension
        (Layout.apply_options (opts ++ [Layout.Extension a; Layout.Extension b])
           Layout.defaults) = "." +:+ b) /\
  (forall a b,
      RenderGo.extension
        (RenderGo.apply_options (ropts ++ [RenderGo.Extension a; RenderGo.Extension b])
           RenderGo.defaults) = "." +:+ b) /\
  (forall middle after,
      Forall (fun o' => Layout.field_of o' <> Layout.field_of o2) after ->
      let l := opts ++ o1 :: middle ++ o2 :: after in
      let d0 := Layout.apply_options l Layout.defaults in
      match Layout.New l with
      | Ok d =>
        match o2 with
        | Layout.AddFuncs funcMap =>
          Layout.funcs d
          = Some (copy_entries (Some sprig_FuncMap) (copy_entries funcMap ∅))
        | _ => Layout.read (Layout.field_of o2) d = Layout.written o2
        end
      | Failed err =>
        ioutil_ReadDir (Sprintf_s_slash_s (Layout.root d0) (Layout.partials d0))
        = Failed err
      end) /\
  (forall middle after,
      Forall (fun p' => RenderGo.field_of p' <> RenderGo.field_of p2) after ->
      let l := ropts ++ p1 :: middle ++ p2 :: after in
      let lr0 := RenderGo.apply_options l RenderGo.defaults in
      match RenderGo.New_renderer l with
      | Ok lr =>
        RenderGo.New l = Ok (RenderGo.handler lr) /\
        match p2 with
        | RenderGo.AddFuncs funcMap =>
          RenderGo.funcs lr
          = Some (copy_entries (Some sprig_FuncMap) (copy_entries funcMap ∅))
        | _ => RenderGo.read (RenderGo.field_of p2) lr = RenderGo.written p2
        end
      | Failed err =>
        RenderGo.New l = Failed err /\
        ioutil_ReadDir
          (Sprintf_s_slash_s (RenderGo.root lr0) (RenderGo.partials lr0))
        = Failed err
      end) /\
  (forall a b d,
      Layout.New (opts ++ [Layout.Extension a; Layout.Extension b]) = Ok d ->
      Layout.extension d = "." +:+ b /\
      exists cfg, Layout.viewEngine d = Some cfg /\ Extension_ cfg = "." +:+ b) /\
  (forall a b lr,
      RenderGo.New_renderer (ropts ++ [RenderGo.Extension a; RenderGo.Extension b])
      = Ok lr ->
      RenderGo.extension lr = "." +:+ b /\
      exists cfg, RenderGo.viewEngine lr = Some cfg /\ Extension_ cfg = "." +:+ b).
Proof.
  intros Ho Hp.
  assert (Layout.apply_options (opts ++ [o1; o2]) Layout.defaults
          = Layout.apply_option o2 (Layout.apply_options opts Layout.defaults)) as E1.
  { rewrite Layout_apply_options_app. simpl. by apply Layout_option_overwrites. }
  assert (RenderGo.apply_options (ropts ++ [p1; p2]) RenderGo.defaults
          = RenderGo.apply_option p2 (RenderGo.apply_options ropts RenderGo.defaults))
    as E2.
  { rewrite RenderGo_apply_options_app. simpl. by apply RenderGo_option_overwrites. }
  assert (forall a b,
      Layout.extension
        (Layout.apply_options (opts ++ [Layout.Extension a; Layout.Extension b])
           Layout.defaults) = "." +:+ b) as X1.
  { intros a b. rewrite Layout_apply_options_app. simpl.
    by destruct (Layout.apply_options opts Layout.defaults). }
  assert (forall a b,
      RenderGo.extension
        (RenderGo.apply_options (ropts ++ [RenderGo.Extension a; RenderGo.Extension b])
           RenderGo.defaults) = "." +:+ b) as X2.
  { intros a b. rewrite RenderGo_apply_options_app. simpl.
    by destruct (RenderGo.apply_options ropts RenderGo.defaults). }
  split; [|split; [|split; [|split; [|split; [|split; [|split; [|split; [|split]]]]]]]].
  - split; [exact E1|]. split.
    + rewrite E1. apply Layout_option_writes.
    + apply Layout_New_resolved. rewrite E1. by rewrite Layout_apply_options_app.
  - split; [exact E2|]. split.
    + rewrite E2. apply RenderGo_option_writes.
    + apply RenderGo_New_resolved. rewrite E2. by rewrite RenderGo_apply_options_app.
  - intros middle after Hafter.
    replace (opts ++ o1 :: middle ++ o2 :: after)
      with ((opts ++ o1 :: middle) ++ o2 :: after)
      by (by rewrite <- app_assoc).
    by apply Layout_read_last_writer.
  - intros middle after Hafter.
    replace (ropts ++ p1 :: middle ++ p2 :: after)
      with ((ropts ++ p1 :: middle) ++ p2 :: after)
      by (by rewrite <- app_assoc).
    by apply RenderGo_read_last_writer.
  - exact X1.
  - exact X2.
  - intros middle after Hafter l d0.
    assert (Layout.read (Layout.field_of o2) d0 = Layout.written o2) as Hread.
    { unfold d0, l.
      replace (opts ++ o1 :: middle ++ o2 :: after)
        with ((opts ++ o1 :: middle) ++ o2 :: after)
        by (by rewrite <- app_assoc).
      by apply Layout_read_last_writer. }
    pose proof (Layout_New_outcome l) as Hnew. cbv zeta in Hnew. fold d0 in Hnew.
    destruct (Layout.New l) as [d|err]; [|exact Hnew].
    destruct Hnew as (Hfields & Hfuncs & _).
    destruct o2; try (rewrite Hfields by discriminate; exact Hread).
    rewrite Hfuncs. unfold Layout.allFuncs.
    cbn [Layout.field_of Layout.read Layout.written] in Hread.
    by injection Hread as ->.
  - intros middle after Hafter l lr0.
    assert (RenderGo.read (RenderGo.field_of p2) lr0 = RenderGo.written p2) as Hread.
    { unfold lr0, l.
      replace (ropts ++ p1 :: middle ++ p2 :: after)
        with ((ropts ++ p1 :: middle) ++ p2 :: after)
        by (by rewrite <- app_assoc).
      by apply RenderGo_read_last_writer. }
    pose proof (RenderGo_New_outcome l) as Hnew. cbv zeta in Hnew. fold lr0 in Hnew.
    destruct (RenderGo.New_renderer l) as [lr|err]; [|exact Hnew].
    destruct Hnew as (Hhandler & Hfields & Hfuncs & _).
    split; [exact Hhandler|].
    destruct p2; try (rewrite Hfields by discriminate; exact Hread).
    rewrite Hfuncs. unfold RenderGo.allFuncs.
    cbn [RenderGo.field_of RenderGo.read RenderGo.written] in Hread.
    by injection Hread as ->.
  - intros a b d Hd.
    pose proof (Layout_New_outcome
                  (opts ++ [Layout.Extension a; Layout.Extension b])) as Hnew.
    cbv zeta in Hnew. rewrite Hd in Hnew.
    destruct Hnew as (Hfields & _ & cfg & Hcfg & Hext).
    specialize (Hfields Layout.F_extension). cbn [Layout.read] in Hfields.
    rewrite X1 in Hfields, Hext. split.
    + assert (Layout.F_extension <> Layout.F_funcs) as Hne by discriminate.
      specialize (Hfields Hne). by injection Hfields.
    + by exists cfg.
  - intros a b lr Hlr.
    pose proof (RenderGo_New_outcome
                  (ropts ++ [RenderGo.Extension a; RenderGo.Extension b])) as Hnew.
    cbv zeta in Hnew. rewrite Hlr in Hnew.
    destruct Hnew as (_ & Hfields & _ & cfg & Hcfg & Hext).
    specialize (Hfields RenderGo.F_extension). cbn [RenderGo.read] in Hfields.
    rewrite X2 in Hfields, Hext. split.
    + assert (RenderGo.F_extension <> RenderGo.F_funcs) as Hne by discriminate.
      specialize (Hfields Hne). by injection Hfields.
    + by exists cfg.
Qed.

(** *** Delimiters *)

Lemma Layout_agree_after_delims l r d :
  Layout.agree_off_delims (Layout.apply_option (Layout.Delimiters l r) d) d.
Proof. by destruct d. Qed.

Lemma Layout_agree_step o a b :
  Layout.agree_off_delims a b ->
  Layout.agree_off_delims (Layout.apply_option o a) (Layout.apply_option o b).
Proof.
  destruct a, b, o; unfold Layout.agree_off_delims; simpl;
    intros [= -> -> -> -> -> -> -> -> -> -> -> -> ->]; reflexivity.
Qed.

Lemma Layout_agree_options opts a b :
  Layout.agree_off_delims a b ->
  Layout.agree_off_delims (Layout.apply_options opts a) (Layout.apply_options opts b).
Proof.
  revert a b. induction opts as [|o opts IH]; intros a b Hab; simpl; [done|].
  apply IH. by apply Layout_agree_step.
Qed.

Lemma RenderGo_agree_after_delims l r lr :
  RenderGo.agree_off_delims (RenderGo.apply_option (RenderGo.Delimiters l r) lr) lr.
Proof. by destruct lr. Qed.

Lemma RenderGo_agree_step o a b :
  RenderGo.agree_off_delims a b ->
  RenderGo.agree_off_delims (RenderGo.apply_option o a) (RenderGo.apply_option o b).
Proof.
  destruct a, b, o; unfold RenderGo.agree_off_delims; simpl;
    intros [= -> -> -> -> -> -> -> -> -> -> -> -> ->]; reflexivity.
Qed.

Lemma RenderGo_agree_options opts a b :
  RenderGo.agree_off_delims a b ->
  RenderGo.agree_off_delims (RenderGo.apply_options opts a)
    (RenderGo.apply_options opts b).
Proof.
  revert a b. induction opts as [|o opts IH]; intros a b Hab; simpl; [done|].
  apply IH. by apply RenderGo_agree_step.
Qed.

(** New on two option lists whose resolved renderers agree off the
    delimiters: the same failure, or renderers with the same engine and the
    same handlers. *)
Lemma Layout_New_agree opts1 opts2 :
  Layout.agree_off_delims (Layout.apply_options opts1 Layout.defaults)
    (Layout.apply_options opts2 Layout.defaults) ->
  match Layout.New opts1, Layout.New opts2 with
  | Ok a, Ok b =>
    Layout.viewEngine a = Layout.viewEngine b /\
    (forall view viewHandlerFunc w,
        Layout.Handle a view viewHandlerFunc w = Layout.Handle b view viewHandlerFunc w) /\
    (forall view data w,
        Layout.HandleStaticWithData a view data w
        = Layout.HandleStaticWithData b view data w)
  | Failed e1, Failed e2 => e1 = e2
  | _, _ => False
  end.
Proof.
  pose proof (Layout_New_unfold opts1) as E1.
  pose proof (Layout_New_unfold opts2) as E2. simpl in E1, E2.
  rewrite E1, E2. clear E1 E2.
  destruct (Layout.apply_options opts1 Layout.defaults),
           (Layout.apply_options opts2 Layout.defaults).
  unfold Layout.agree_off_delims. simpl.
  intros [= -> -> -> -> -> -> -> -> -> -> -> -> ->].
  destruct (ioutil_ReadDir _); [|done].
  split; [reflexivity|]. split; reflexivity.
Qed.

Lemma RenderGo_New_agree opts1 opts2 :
  RenderGo.agree_off_delims (RenderGo.apply_options opts1 RenderGo.defaults)
    (RenderGo.apply_options opts2 RenderGo.defaults) ->
  match RenderGo.New_renderer opts1, RenderGo.New_renderer opts2 with
  | Ok a, Ok b =>
    RenderGo.viewEngine a = RenderGo.viewEngine b /\
    (forall view dataFuncs w,
        RenderGo.handler a view dataFuncs w = RenderGo.handler b view dataFuncs w)
  | Failed e1, Failed e2 => e1 = e2
  | _, _ => False
  end.
Proof.
  pose proof (RenderGo_New_unfold opts1) as E1.
  pose proof (RenderGo_New_unfold opts2) as E2. simpl in E1, E2.
  rewrite E1, E2. clear E1 E2.
  destruct (RenderGo.apply_options opts1 RenderGo.defaults),
           (RenderGo.apply_options opts2 RenderGo.defaults).
  unfold RenderGo.agree_off_delims. simpl.
  intros [= -> -> -> -> -> -> -> -> -> -> -> -> ->].
  destruct (ioutil_ReadDir _); [|done].
  split; reflexivity.
Qed.

(** C10. Delimiters(l, r) stores the pair on the renderer, and nothing of
    it reaches the engine: the configuration handed to goview.New keeps its
    zero delimiters, and New with the option anywhere in the list and New
    without it fail alike or give the same engine configuration and handlers
    that answer alike. Both generations. *)
Theorem delimiters_never_reach_engine
    (lopts1 lopts2 : list Layout.LayoutRendererOption)
    (ropts1 ropts2 : list RenderGo.Option) (l r : string) :
  (RenderGo.delims
     (RenderGo.apply_options (ropts1 ++ [RenderGo.Delimiters l r]) RenderGo.defaults)
   = {| Left := l; Right := r |} /\
   match RenderGo.New_renderer (ropts1 ++ RenderGo.Delimiters l r :: ropts2),
         RenderGo.New_renderer (ropts1 ++ ropts2) with
   | Ok a, Ok b =>
     RenderGo.viewEngine a = RenderGo.viewEngine b /\
     (forall view dataFuncs w,
         RenderGo.handler a view dataFuncs w = RenderGo.handler b view dataFuncs w)
   | Failed e1, Failed e2 => e1 = e2
   | _, _ => False
   end) /\
  (Layout.delims
     (Layout.apply_options (lopts1 ++ [Layout.Delimiters l r]) Layout.defaults)
   = {| Left := l; Right := r |} /\
   match Layout.New (lopts1 ++ Layout.Delimiters l r :: lopts2),
         Layout.New (lopts1 ++ lopts2) with
   | Ok a, Ok b =>
     Layout.viewEngine a = Layout.viewEngine b /\
     (forall view viewHandlerFunc w,
         Layout.Handle a view viewHandlerFunc w = Layout.Handle b view viewHandlerFunc w) /\
     (forall view data w,
         Layout.HandleStaticWithData a view data w
         = Layout.HandleStaticWithData b view data w)
   | Failed e1, Failed e2 => e1 = e2
   | _, _ => False
   end) /\
  (forall lr discovered,
      Delims (RenderGo.engine_config lr discovered) = {| Left := ""; Right := "" |}) /\
  (forall d discovered,
      Delims (Layout.engine_config d discovered) = {| Left := ""; Right := "" |}).
Proof.
  repeat split; try reflexivity.
  - rewrite RenderGo_apply_options_app. simpl.
    by destruct (RenderGo.apply_options ropts1 RenderGo.defaults).
  - apply RenderGo_New_agree. rewrite !RenderGo_apply_options_app. simpl.
    apply RenderGo_agree_options, RenderGo_agree_after_delims.
  - rewrite Layout_apply_options_app. simpl.
    by destruct (Layout.apply_options lopts1 Layout.defaults).
  - apply Layout_New_agree. rewrite !Layout_apply_options_app. simpl.
    apply Layout_agree_options, Layout_agree_after_delims.
Qed.

(** *** The function table *)

Lemma merged_funcs_lookup (user : gomap Func) (name : string) :
  copy_entries (Some sprig_FuncMap) (copy_entries user ∅) !! name
  = match sprig_FuncMap !! name with
    | Some f => Some f
    | None => entries user !! name
    end.
Proof.
  rewrite !copy_entries_union. simpl. rewrite (right_id_L ∅ (∪)).
  rewrite lookup_union.
  by destruct (sprig_FuncMap !! name), (entries user !! name).
Qed.

Lemma Layout_funcs_after_AddFuncs opts user :
  Layout.funcs (Layout.apply_options (opts ++ [Layout.AddFuncs user]) Layout.defaults)
  = user.
Proof.
  rewrite Layout_apply_options_app. simpl.
  by destruct (Layout.apply_options opts Layout.defaults).
Qed.

Lemma RenderGo_funcs_after_AddFuncs opts user :
  RenderGo.funcs
    (RenderGo.apply_options (opts ++ [RenderGo.AddFuncs user]) RenderGo.defaults)
  = user.
Proof.
  rewrite RenderGo_apply_options_app. simpl.
  by destruct (RenderGo.apply_options opts RenderGo.defaults).
Qed.

(** The function table New builds and stores on the renderer, a field that
    neither the engine nor a handler reads afterwards: it holds every
    baseline (sprig) function and every function of the map given last to
    AddFuncs whose name is not a baseline name; where the names collide the
    baseline function is the one kept. Both generations. *)
Theorem function_table_baseline_kept
    (lopts : list Layout.LayoutRendererOption) (ropts : list RenderGo.Option)
    (user : gomap Func) (d : Layout.LayoutRenderer) (lr : RenderGo.renderer) :
  Layout.New (lopts ++ [Layout.AddFuncs user]) = Ok d ->
  RenderGo.New_renderer (ropts ++ [RenderGo.AddFuncs user]) = Ok lr ->
  (exists table,
      Layout.funcs d = Some table /\
      forall name,
        table !! name = match sprig_FuncMap !! name with
                        | Some f => Some f
                        | None => entries user !! name
                        end) /\
  (exists table,
      RenderGo.funcs lr = Some table /\
      forall name,
        table !! name = match sprig_FuncMap !! name with
                        | Some f => Some f
                        | None => entries user !! name
                        end).
Proof.
  intros Hd Hlr. split.
  - pose proof (Layout_New_unfold (lopts ++ [Layout.AddFuncs user])) as E.
    simpl in E. rewrite E in Hd. clear E.
    destruct (ioutil_ReadDir _); [|discriminate].
    injection Hd as <-. eexists. split; [reflexivity|].
    intros name. unfold Layout.allFuncs.
    rewrite Layout_funcs_after_AddFuncs. apply merged_funcs_lookup.
  - pose proof (RenderGo_New_unfold (ropts ++ [RenderGo.AddFuncs user])) as E.
    simpl in E. rewrite E in Hlr. clear E.
    destruct (ioutil_ReadDir _); [|discriminate].
    injection Hlr as <-. eexists. split; [reflexivity|].
    intros name. unfold RenderGo.allFuncs.
    rewrite RenderGo_funcs_after_AddFuncs. apply merged_funcs_lookup.
Qed.

End Construction.

(** ** The accumulating pipeline of render.go *)

Section Accumulating.
Context `{CaseTables} `{Collaborators}.

Lemma bind_Done {A B} (a : A) (f : A -> outcome B) : Done a ≫= f = f a.
Proof. reflexivity. Qed.

Lemma record_error_classify errs err :
  RenderGo.record_error errs err = errs ++ option_list (user_message (classify err)).
Proof.
  unfold RenderGo.record_error, classify.
  destruct err as [e|]; simpl; [|by rewrite app_nil_r].
  destruct (errors_Unwrap e); simpl; [done | by rewrite app_nil_r].
Qed.

Lemma messages_cons data err results :
  RenderGo.messages ((data, err) :: results)
  = option_list (user_message (classify err)) ++ RenderGo.messages results.
Proof.
  unfold RenderGo.messages. simpl.
  by destruct (user_message (classify err)).
Qed.

Lemma run_dataFuncs_spec dataFuncs vd errs w :
  RenderGo.run_dataFuncs dataFuncs (Some vd) errs w
  = Done (Some (fold_left (fun acc r => entries (fst r) ∪ acc)
                  (fst (RenderGo.run_all dataFuncs w)) vd),
          errs ++ RenderGo.messages (fst (RenderGo.run_all dataFuncs w)),
          snd (RenderGo.run_all dataFuncs w)).
Proof.
  revert vd errs w.
  induction dataFuncs as [|dataFunc rest IH]; intros vd errs w; simpl.
  - by rewrite app_nil_r.
  - destruct (dataFunc w) as [[data err] w1].
    rewrite range_assign_made, bind_Done, IH.
    destruct (RenderGo.run_all rest w1) as [results w2]. cbn [fst snd fold_left].
    by rewrite record_error_classify, messages_cons, <- app_assoc.
Qed.

(** The context the handler assembles, from the results of all providers. *)
Lemma handler_context_spec lr dataFuncs w :
  let results := fst (RenderGo.run_all (RenderGo.providers lr dataFuncs) w) in
  let errs := RenderGo.messages results in
  RenderGo.handler_context lr dataFuncs w
  = Done (Some (if (0 <? List.length errs)%nat
                then <[RenderGo.errorKey lr := VStrings errs]> (RenderGo.merged results)
                else RenderGo.merged results),
          snd (RenderGo.run_all (RenderGo.providers lr dataFuncs) w)).
Proof.
  unfold RenderGo.handler_context, RenderGo.providers, RenderGo.merged, make.
  destruct (RenderGo.defaultData lr) as [defaultFunc|]; cbv beta iota zeta.
  - cbn [RenderGo.run_all]. destruct (defaultFunc w) as [[defaultData err] w1].
    rewrite range_assign_made, !bind_Done, run_dataFuncs_spec, bind_Done.
    destruct (RenderGo.run_all dataFuncs w1) as [results w2].
    cbn [fst snd fold_left].
    rewrite record_error_classify, messages_cons. cbn [app].
    by destruct (0 <? _)%nat.
  - rewrite bind_Done, run_dataFuncs_spec, bind_Done. cbn [app].
    by destruct (0 <? _)%nat.
Qed.

Lemma run_all_length ps w :
  List.length (fst (RenderGo.run_all ps w)) = List.length ps.
Proof.
  revert w. induction ps as [|p rest IH]; intros w; simpl; [done|].
  destruct (p w) as [[data err] w1]. specialize (IH w1).
  destruct (RenderGo.run_all rest w1). simpl in *. by rewrite IH.
Qed.

(** Running a list of providers in two parts: the later part starts from
    the writer the earlier part left, whatever the earlier part returned. *)
Lemma run_all_app ps1 ps2 w :
  RenderGo.run_all (ps1 ++ ps2) w
  = (fst (RenderGo.run_all ps1 w)
       ++ fst (RenderGo.run_all ps2 (snd (RenderGo.run_all ps1 w))),
     snd (RenderGo.run_all ps2 (snd (RenderGo.run_all ps1 w)))).
Proof.
  revert w. induction ps1 as [|p rest IH]; intros w; simpl.
  - by destruct (RenderGo.run_all ps2 w).
  - destruct (p w) as [[data err] w1]. rewrite IH.
    by destruct (RenderGo.run_all rest w1).
Qed.

Lemma messages_count results :
  List.length (RenderGo.messages results)
  = List.length (List.filter (fun r => is_user_facing (classify (snd r))) results).
Proof.
  induction results as [|[data err] results IH]; [done|].
  rewrite messages_cons. simpl.
  destruct (classify err); simpl; by rewrite IH.
Qed.

(** In a merge of results a key holds the value of the last result that
    has it, and a key the last result does not mention keeps what the
    earlier results gave. *)
Lemma merged_last_writer results data err k :
  RenderGo.merged (results ++ [(data, err)]) !! k
  = match entries data !! k with
    | Some v => Some v
    | None => RenderGo.merged results !! k
    end.
Proof.
  unfold RenderGo.merged. rewrite fold_left_app. cbn [fold_left fst].
  rewrite lookup_union.
  destruct (entries data !! k) as [v|]; by destruct (_ !! k).
Qed.

Lemma providers_app lr dataFuncs dataFunc :
  RenderGo.providers lr (dataFuncs ++ [dataFunc])
  = RenderGo.providers lr dataFuncs ++ [dataFunc].
Proof. unfold RenderGo.providers. by destruct (RenderGo.defaultData lr). Qed.

(** X2. The handler of render.go with one more provider at the end of the
    call: it reaches the render call as the handler without that provider
    does, the added provider runs on the response the others left, and in
    the context handed to the engine every key but the error key holds the
    added provider's value when its map has the key, and otherwise what
    the context without that provider holds. *)
Theorem handler_last_provider_wins
    (lr : RenderGo.renderer) (dataFuncs : list RenderGo.Data)
    (dataFunc : RenderGo.Data) (w : ResponseWriter) :
  exists ctx0 w0,
    RenderGo.handler_context lr dataFuncs w = Done (Some ctx0, w0) /\
    exists ctx,
      RenderGo.handler_context lr (dataFuncs ++ [dataFunc]) w
      = Done (Some ctx, snd (dataFunc w0)) /\
      forall k,
        k <> RenderGo.errorKey lr ->
        ctx !! k = match entries (fst (fst (dataFunc w0))) !! k with
                   | Some v => Some v
                   | None => ctx0 !! k
                   end.
Proof.
  pose proof (handler_context_spec lr dataFuncs w) as Hbefore.
  pose proof (handler_context_spec lr (dataFuncs ++ [dataFunc]) w) as Hafter.
  cbv zeta in Hbefore, Hafter. rewrite providers_app, run_all_app in Hafter.
  cbn [fst snd] in Hafter. cbn [RenderGo.run_all] in Hafter.
  destruct (RenderGo.run_all (RenderGo.providers lr dataFuncs) w)
    as [results w0] eqn:Hrun.
  cbn [fst snd] in Hbefore, Hafter.
  destruct (dataFunc w0) as [[data err] w1] eqn:Hlast. cbn [fst snd] in Hafter.
  eexists _, _. split; [exact Hbefore|]. rewrite Hlast.
  eexists. split; [exact Hafter|].
  intros k Hk. cbn [fst snd].
  assert (forall (b : bool) (errs : list string) (m : gmap string value),
    (if b then <[RenderGo.errorKey lr := VStrings errs]> m else m) !! k = m !! k)
    as Hoff.
  { intros [] errs m; [by rewrite lookup_insert_ne|done]. }
  rewrite !Hoff. apply merged_last_writer.
Qed.


(** C2, as the code has it. In the handler New returns, every provider
    runs in order whatever the earlier ones returned (the default one
    first); each failure that unwraps to a cause adds one string to an
    ordered list, a failure that does not adds none, so the list has one
    entry per user-facing failure; once all have run the handler stores
    that list, as a sequence, at the error key when it is not empty, and
    when it is empty it writes nothing: the context is then the merge of
    the providers' maps, the error key included. *)
Theorem accumulating_merge_collects_user_errors
    (lr : RenderGo.renderer) (dataFuncs : list RenderGo.Data) (w : ResponseWriter) :
  let ps := RenderGo.providers lr dataFuncs in
  let results := fst (RenderGo.run_all ps w) in
  let errs := RenderGo.messages results in
  List.length results = List.length ps /\
  (forall ps1 ps2,
      ps = ps1 ++ ps2 ->
      results = fst (RenderGo.run_all ps1 w)
                ++ fst (RenderGo.run_all ps2 (snd (RenderGo.run_all ps1 w)))) /\
  (exists ctx,
      RenderGo.handler_context lr dataFuncs w
      = Done (Some ctx, snd (RenderGo.run_all ps w)) /\
      (errs <> [] -> ctx !! RenderGo.errorKey lr = Some (VStrings errs)) /\
      (errs = [] -> ctx = RenderGo.merged results) /\
      (forall k, k <> RenderGo.errorKey lr -> ctx !! k = RenderGo.merged results !! k)) /\
  List.length errs
  = List.length (List.filter (fun r => is_user_facing (classify (snd r))) results).
Proof.
  intros ps results errs. split; [apply run_all_length|]. split.
  { intros ps1 ps2 Hps. unfold results. rewrite Hps, run_all_app. reflexivity. }
  split; [|apply messages_count].
  pose proof (handler_context_spec lr dataFuncs w) as Hctx. cbv zeta in Hctx.
  fold ps in Hctx. fold results in Hctx. fold errs in Hctx.
  eexists. split; [exact Hctx|].
  destruct errs as [|e errs']; cbn [List.length Nat.ltb Nat.leb].
  - repeat split; done.
  - repeat split.
    + intros _. apply lookup_insert_eq.
    + discriminate.
    + intros k Hk. by rewrite lookup_insert_ne.
Qed.

End Accumulating.

(** ** The single-error-key pipeline of the LayoutRenderer *)

Section SingleKey.
Context `{CaseTables} `{Collaborators}.

Lemma default_phase_spec lr w :
  Layout.default_phase lr w
  = Done (Some (entries (fst (fst (Layout.default_result lr w)))
                ∪ Layout.error_entry lr
                    (classify (snd (fst (Layout.default_result lr w))))),
          snd (Layout.default_result lr w)).
Proof.
  unfold Layout.default_phase, Layout.default_result, make.
  destruct (Layout.defaultHandler lr) as [handler|]; cbv beta iota zeta.
  - destruct (handler w) as [[defaultData err] w1]. cbn [fst snd].
    unfold classify, Layout.shown.
    destruct err as [e|]; [destruct (errors_Unwrap e)|];
      cbn [mapassign Layout.error_entry];
      rewrite ?bind_Done, range_assign_made, bind_Done;
      by rewrite ?insert_empty.
  - cbn. by rewrite (left_id_L ∅ (∪)).
Qed.

Lemma view_error_spec lr vd err :
  Layout.view_error lr (Some vd) err
  = Done (Some (Layout.after_view_error lr vd (classify err))).
Proof.
  unfold Layout.view_error, classify, Layout.after_view_error, Layout.shown,
    mapaccess, Sprintf_s_space_s.
  destruct err as [e|]; [|done].
  destruct (errors_Unwrap e); [|done]. cbn [entries default].
  by destruct (is_nil _).
Qed.

(** The context Handle assembles: the view handler's own map, with all that
    the default phase and the error block left written over it; a nil map
    from the view handler survives only when there is nothing to write. *)
Lemma Handle_context_spec lr viewHandlerFunc w :
  let dflt := Layout.default_result lr w in
  let view := viewHandlerFunc (snd dflt) in
  let viewData :=
    Layout.after_view_error lr
      (entries (fst (fst dflt)) ∪ Layout.error_entry lr (classify (snd (fst dflt))))
      (classify (snd (fst view))) in
  Layout.Handle_context lr viewHandlerFunc w
  = match fst (fst view) with
    | Some data => Done (Some (viewData ∪ data), snd view)
    | None =>
      if decide (viewData = ∅) then Done (None, snd view)
      else Panic "assignment to entry in nil map"
    end.
Proof.
  unfold Layout.Handle_context. rewrite default_phase_spec, bind_Done.
  cbv beta iota zeta.
  destruct (viewHandlerFunc _) as [[data err] w2]. cbn [fst snd].
  rewrite view_error_spec, bind_Done.
  destruct data as [data|].
  - by rewrite range_assign_made, bind_Done.
  - rewrite range_assign_nil. cbn [entries default].
    by destruct (decide _).
Qed.

End SingleKey.

(** ** What reaches the error key, in both generations *)

Section Surfacing.
Context `{CaseTables} `{Collaborators}.

Lemma wrapped_message_example :
  first (strings_ToLower "a wrapped message") = "A wrapped message".
Proof. reflexivity. Qed.








Lemma after_view_error_lookup lr vd err :
  err <> None ->
  exists s,
    Layout.after_view_error lr vd (classify err) !! Layout.errorKey lr
    = Some (VString s).
Proof.
  destruct err as [e|]; [intros _|done]. unfold classify.
  destruct (errors_Unwrap e); cbn [Layout.after_view_error];
    eexists; apply lookup_insert_eq.
Qed.

Lemma after_view_error_keeps_string lr vd c s :
  vd !! Layout.errorKey lr = Some (VString s) ->
  exists s',
    Layout.after_view_error lr vd c !! Layout.errorKey lr = Some (VString s').
Proof.
  intros Hvd. destruct c; cbn [Layout.after_view_error]; eauto;
    eexists; apply lookup_insert_eq.
Qed.


Lemma messages_nonempty results :
  Exists (fun r : RenderGo.D * option error =>
            is_user_facing (classify (snd r)) = true) results ->
  RenderGo.messages results <> [].
Proof.
  induction 1 as [[data err] results Hx|[data err] results _ IH];
    rewrite messages_cons.
  - cbn [snd] in Hx. by destruct (classify err).
  - intros Happ. apply app_eq_nil in Happ as [_ Hnil]. by apply IH.
Qed.

Lemma after_view_error_keeps_value lr vd c v :
  vd !! Layout.errorKey lr = Some v -> is_nil v = false ->
  exists v',
    Layout.after_view_error lr vd c !! Layout.errorKey lr = Some v' /\
    is_nil v' = false.
Proof.
  intros Hvd Hv. destruct c; cbn [Layout.after_view_error]; eauto;
    eexists; (split; [apply lookup_insert_eq | done]).
Qed.

(** C5, as the code has it. The context handed to the engine holds a value
    that is not nil at the error key: in the handler of render.go, whenever
    a provider failed with an error that unwraps to a cause; in Handle,
    whenever the view handler returned an error, or the default handler
    returned an error and its map does not hold nil at the error key. *)
Theorem error_key_set_when_surfaced
    (L : Layout.LayoutRenderer) (viewHandlerFunc : Layout.ViewHandlerFunc)
    (lr : RenderGo.renderer) (dataFuncs : list RenderGo.Data) (w : ResponseWriter) :
  (Exists (fun r : RenderGo.D * option error =>
             is_user_facing (classify (snd r)) = true)
     (fst (RenderGo.run_all (RenderGo.providers lr dataFuncs) w)) ->
   exists ctx w' v,
     RenderGo.handler_context lr dataFuncs w = Done (Some ctx, w') /\
     ctx !! RenderGo.errorKey lr = Some v /\ is_nil v = false) /\
  (forall ctx w',
      Layout.Handle_context L viewHandlerFunc w = Done (ctx, w') ->
      let dflt := Layout.default_result L w in
      let view := viewHandlerFunc (snd dflt) in
      snd (fst view) <> None \/
      (snd (fst dflt) <> None /\
       entries (fst (fst dflt)) !! Layout.errorKey L <> Some VNil) ->
      exists v, entries ctx !! Layout.errorKey L = Some v /\ is_nil v = false).
Proof.
  split.
  - intros Hex. apply messages_nonempty in Hex.
    pose proof (handler_context_spec lr dataFuncs w) as Hctx. cbv zeta in Hctx.
    destruct (RenderGo.messages _) as [|e errs']; [done|].
    cbn [List.length Nat.ltb Nat.leb] in Hctx.
    eexists _, _, _. split; [exact Hctx|].
    split; [apply lookup_insert_eq | done].
  - intros ctx w' Hctx dflt view Hcause.
    pose proof (Handle_context_spec L viewHandlerFunc w) as Hspec.
    cbv zeta in Hspec. fold dflt in Hspec. fold view in Hspec.
    rewrite Hspec in Hctx. clear Hspec.
    set (vd := entries (fst (fst dflt))
               ∪ Layout.error_entry L (classify (snd (fst dflt)))) in *.
    assert (exists v,
      Layout.after_view_error L vd (classify (snd (fst view))) !! Layout.errorKey L
      = Some v /\ is_nil v = false) as (v & Hv & Hnil).
    { destruct Hcause as [Hview|[Hdflt Hfree]].
      - destruct (after_view_error_lookup L vd _ Hview) as [s Hs]. by exists (VString s).
      - destruct (entries (fst (fst dflt)) !! Layout.errorKey L) as [v0|] eqn:Hentry.
        + apply (after_view_error_keeps_value L vd _ v0).
          * unfold vd. by apply lookup_union_Some_l.
          * destruct v0; [by destruct Hfree | done..].
        + apply (after_view_error_keeps_value L vd _
                   (VString match classify (snd (fst dflt)) with
                            | UserFacing message => message
                            | _ => Layout.defaultError L
                            end)); [|done].
          unfold vd. rewrite lookup_union_r by exact Hentry.
          unfold classify in *. destruct (snd (fst dflt)) as [e|]; [|done].
          destruct (errors_Unwrap e); cbn [Layout.error_entry];
            apply lookup_singleton_eq. }
    destruct (fst (fst view)) as [data|].
    + injection Hctx as <- <-. exists v. split; [|done].
      cbn [entries default]. by apply lookup_union_Some_l.
    + destruct (decide _) as [Hempty|]; [|discriminate Hctx].
      rewrite Hempty, lookup_empty in Hv. discriminate Hv.
Qed.

End Surfacing.

(** ** The render call and its fallback *)

Section Fallback.
Context `{CaseTables} `{Collaborators}.

Lemma doPrintf_plain (bs : list Z) :
  forallb (fun c => negb (c =? 37)) bs = true -> doPrintf_from 0 bs = bs.
Proof.
  induction bs as [|c bs IH]; cbn [forallb doPrintf_from]; [done|].
  rewrite andb_true_iff, negb_true_iff. intros [-> Hbs]. by rewrite IH.
Qed.

(** A format with no percent sign is written as it is. *)
Lemma Sprintf0_plain (format : string) :
  forallb (fun c => negb (c =? 37)) (bytes_of format) = true ->
  Sprintf0 format = format.
Proof.
  intros Hplain. unfold Sprintf0. rewrite doPrintf_plain by done.
  apply string_of_bytes_of.
Qed.

(** X1. The handler of render.go never panics once New has built its
    renderer: the render call is reached with a map that is not nil, and
    some writer is returned. *)
Lemma handler_completes opts lr view dataFuncs w :
  RenderGo.New_renderer opts = Ok lr ->
  exists ctx w1,
    RenderGo.handler_context lr dataFuncs w = Done (Some ctx, w1) /\
    exists w2, RenderGo.handler lr view dataFuncs w = Done w2.
Proof.
  intros Hnew.
  pose proof (RenderGo_New_unfold opts) as E. simpl in E. rewrite E in Hnew.
  destruct (ioutil_ReadDir _); [|discriminate]. injection Hnew as <-.
  pose proof handler_context_spec as Hctx. cbv zeta in Hctx.
  eexists _, _. split; [apply Hctx|].
  unfold RenderGo.handler. rewrite Hctx, bind_Done. cbn [RenderGo.viewEngine].
  destruct (ViewEngine_Render _ _ _ _ _) as [w2 [err|]]; eauto.
Qed.

(** X3. When the engine fails and the fallback message has no percent sign,
    the handler appends exactly that message to what has been written. *)
Lemma handler_fallback_plain opts lr view dataFuncs w ctx w1 w2 err :
  RenderGo.New_renderer opts = Ok lr ->
  RenderGo.handler_context lr dataFuncs w = Done (ctx, w1) ->
  (forall engine,
      RenderGo.viewEngine lr = Some engine ->
      ViewEngine_Render engine w1 StatusOK view ctx = (w2, Some err)) ->
  forallb (fun c => negb (c =? 37)) (bytes_of (RenderGo.renderError lr)) = true ->
  RenderGo.handler lr view dataFuncs w = Done (w2 +:+ RenderGo.renderError lr).
Proof.
  intros Hnew Hctx Hfail Hplain.
  unfold RenderGo.handler. rewrite Hctx, bind_Done.
  pose proof (RenderGo_New_unfold opts) as E. simpl in E. rewrite E in Hnew.
  destruct (ioutil_ReadDir _); [|discriminate]. injection Hnew as <-.
  cbn [RenderGo.viewEngine RenderGo.renderError] in *.
  rewrite (Hfail _ eq_refl). unfold Fprintf. by rewrite Sprintf0_plain.
Qed.

(** X4. In Handle every entry the default phase left in its map, the error
    key apart, is in the context handed to the engine, whatever the view
    handler returned under the same name. *)
Lemma Handle_context_default_entries_win lr viewHandlerFunc w vd w1 ctx w' k v :
  Layout.default_phase lr w = Done (Some vd, w1) ->
  Layout.Handle_context lr viewHandlerFunc w = Done (ctx, w') ->
  k <> Layout.errorKey lr ->
  vd !! k = Some v ->
  entries ctx !! k = Some v.
Proof.
  intros Hdp Hctx Hk Hv. unfold Layout.Handle_context in Hctx.
  rewrite Hdp, bind_Done in Hctx.
  destruct (viewHandlerFunc w1) as [[data err] w2].
  rewrite view_error_spec, bind_Done in Hctx.
  assert (Layout.after_view_error lr vd (classify err) !! k = Some v) as Hkept.
  { destruct (classify err); cbn [Layout.after_view_error];
      by rewrite ?lookup_insert_ne. }
  destruct data as [data|].
  - rewrite range_assign_made, bind_Done in Hctx. injection Hctx as <- <-.
    cbn [entries default]. by apply lookup_union_Some_l.
  - rewrite range_assign_nil in Hctx.
    destruct (decide _) as [Hempty|]; [|discriminate Hctx].
    change (Layout.after_view_error lr vd (classify err) = ∅) in Hempty.
    rewrite Hempty, lookup_empty in Hkept. discriminate Hkept.
Qed.

(** X5. Handle completes, on a renderer New has built, whenever the view
    handler returns a map that is not nil. *)
Lemma Handle_completes_on_made_map opts lr view viewHandlerFunc w data :
  Layout.New opts = Ok lr ->
  fst (fst (viewHandlerFunc (snd (Layout.default_result lr w)))) = Some data ->
  exists w2, Layout.Handle lr view viewHandlerFunc w = Done w2.
Proof.
  intros Hnew Hdata. unfold Layout.Handle.
  pose proof (Handle_context_spec lr viewHandlerFunc w) as Hctx.
  cbv zeta in Hctx.
  destruct (viewHandlerFunc (snd (Layout.default_result lr w))) as [[d e] w1].
  cbn [fst snd] in Hctx, Hdata. subst d. rewrite Hctx, bind_Done.
  pose proof (Layout_New_unfold opts) as E. simpl in E. rewrite E in Hnew.
  destruct (ioutil_ReadDir _); [|discriminate]. injection Hnew as <-.
  unfold Layout.render. cbn [Layout.viewEngine].
  destruct (ViewEngine_Render _ _ _ _ _) as [w2 [err|]]; eauto.
Qed.

End Fallback.

(** ** The claims on concrete collaborators *)

Import Scenario.

(** C3 at a map given to AddFuncs with "shout", a new name, and "upper", a
    baseline name. The table given to the engine is sprig.FuncMap() alone:
    it has no "shout", so the user's function never reaches a template,
    and its "upper" is the baseline function. The table stored on the
    renderer has the baseline "upper" as well. Both generations. *)
Lemma user_function_loses_collision :
  let user : gomap Func := Some {[ "upper" := FuncImpl 7; "shout" := FuncImpl 8 ]} in
  @sprig_FuncMap failing_engine !! "upper" = Some (FuncImpl 0) /\
  entries user !! "upper" = Some (FuncImpl 7) /\
  match @Layout.New failing_engine [Layout.AddFuncs user],
        @RenderGo.New_renderer failing_engine [RenderGo.AddFuncs user] with
  | Ok d, Ok lr =>
    entries (Layout.funcs d) !! "upper" = Some (FuncImpl 0) /\
    entries (RenderGo.funcs lr) !! "upper" = Some (FuncImpl 0) /\
    (Layout.viewEngine d ≫= fun cfg => entries (Funcs cfg) !! "upper")
    = Some (FuncImpl 0) /\
    (RenderGo.viewEngine lr ≫= fun cfg => entries (Funcs cfg) !! "upper")
    = Some (FuncImpl 0) /\
    (Layout.viewEngine d ≫= fun cfg => entries (Funcs cfg) !! "shout") = None /\
    (RenderGo.viewEngine lr ≫= fun cfg => entries (Funcs cfg) !! "shout") = None
  | _, _ => False
  end.
Proof. vm_compute. repeat split. Qed.

Lemma function_table_baseline_kept_witness :
  let user : gomap Func := Some {[ "upper" := FuncImpl 7; "shout" := FuncImpl 8 ]} in
  exists d lr,
    @Layout.New failing_engine [Layout.AddFuncs user] = Ok d /\
    @RenderGo.New_renderer failing_engine [RenderGo.AddFuncs user] = Ok lr /\
    (exists table,
        Layout.funcs d = Some table /\
        forall name,
          table !! name = match @sprig_FuncMap failing_engine !! name with
                          | Some f => Some f
                          | None => entries user !! name
                          end) /\
    (exists table,
        RenderGo.funcs lr = Some table /\
        forall name,
          table !! name = match @sprig_FuncMap failing_engine !! name with
                          | Some f => Some f
                          | None => entries user !! name
                          end).
Proof.
  intros user.
  destruct (@Layout.New failing_engine [Layout.AddFuncs user]) as [d|] eqn:Hd;
    [|vm_compute in Hd; discriminate Hd].
  destruct (@RenderGo.New_renderer failing_engine [RenderGo.AddFuncs user])
    as [lr|] eqn:Hlr; [|vm_compute in Hlr; discriminate Hlr].
  exists d, lr. split; [reflexivity|]. split; [reflexivity|].
  exact (@function_table_baseline_kept failing_engine [] [] user d lr Hd Hlr).
Defined.

(** C1 at a request where both providers set "title": the context Handle
    hands to the engine holds the default handler's value, not the view
    handler's. *)
Theorem Handle_default_value_overwrites_view_value :
  let L :=
    Layout.apply_options
      [Layout.DefaultHandler
         (Some (provides (Some {[ "title" := VString "from default" ]}) None))]
      Layout.defaults in
  let view := provides (Some {[ "title" := VString "from view" ]}) None in
  match @Layout.Handle_context ascii_tables L view "" with
  | Done (Some ctx, _) => ctx !! "title" = Some (VString "from default")
  | _ => False
  end.
Proof. vm_compute. reflexivity. Qed.

(** The same handler, a default handler that fails with a cause and also
    returns an entry at the error key: the entry hides the error. *)
Lemma Handle_default_entry_hides_default_error :
  let L :=
    Layout.apply_options
      [Layout.DefaultHandler
         (Some (provides (Some {[ "error" := VString "from default" ]})
                  (Some (wrapped "session expired"))))]
      Layout.defaults in
  match @Layout.Handle_context ascii_tables L (provides make None) "" with
  | Done (Some ctx, _) => ctx !! "error" = Some (VString "from default")
  | _ => False
  end.
Proof. vm_compute. reflexivity. Qed.

(** The sibling HandleStaticWithData on the same collision keeps the value
    given for the view. *)
Lemma HandleStaticWithData_view_value_wins :
  let L :=
    Layout.apply_options
      [Layout.DefaultHandler
         (Some (provides (Some {[ "title" := VString "from default" ]}) None))]
      Layout.defaults in
  match @Layout.HandleStaticWithData_context ascii_tables L
          (Some {[ "title" := VString "from view" ]}) "" with
  | Done (Some ctx, _) => ctx !! "title" = Some (VString "from view")
  | _ => False
  end.
Proof. vm_compute. reflexivity. Qed.


(** C2 fails as stated: no provider fails, yet the error key holds a
    sequence of one entry, the one a provider returned under that name. *)
Lemma provider_entry_stays_at_error_key :
  let results : list (RenderGo.D * option error) :=
    [(Some {[ "errors" := VStrings ["stale"] ]}, None)] in
  @RenderGo.messages ascii_tables results = [] /\
  List.filter (fun r => is_user_facing (@classify ascii_tables (snd r))) results = [] /\
  match @RenderGo.handler_context ascii_tables RenderGo.defaults
          [provides (Some {[ "errors" := VStrings ["stale"] ]}) None] "" with
  | Done (Some ctx, _) => ctx !! "errors" = Some (VStrings ["stale"])
  | _ => False
  end.
Proof. vm_compute. repeat split. Qed.

(** C5 fails as stated, in two ways. A provider of the render.go handler
    fails with an error that wraps nothing, and the context has no entry at
    the error key. In Handle the default handler fails with a cause while
    its own map holds nil at the error key: that entry is written over the
    recorded text, the view handler adds nothing, and the context holds nil
    at the error key; with any other value in that entry the context holds
    that value. *)
Lemma error_key_unset_after_errors :
  let failing value :=
    Layout.apply_options
      [Layout.DefaultHandler
         (Some (provides (Some {[ "error" := value ]})
                  (Some (wrapped "no such user"))))]
      Layout.defaults in
  match @RenderGo.handler_context ascii_tables RenderGo.defaults
          [provides make (Some (errors_New "connection refused"))] "",
        @Layout.Handle_context ascii_tables (failing VNil) (provides make None) "",
        @Layout.Handle_context ascii_tables (failing (VString "stale"))
          (provides make None) "" with
  | Done (Some ctx, _), Done (ctx1, _), Done (ctx2, _) =>
    ctx !! "errors" = None /\
    entries ctx1 !! "error" = Some VNil /\
    entries ctx2 !! "error" = Some (VString "stale")
  | _, _, _ => False
  end.
Proof. vm_compute. repeat split. Qed.

(** C6 at a view handler that returns a nil map and an error, whether the
    error wraps a cause or not: Handle panics on the assignment into that
    map, before the engine is called, and writes nothing. *)
Theorem Handle_panics_on_nil_map_with_error :
  match @Layout.New working_engine [] with
  | Ok L =>
    @Layout.Handle ascii_tables working_engine L "home"
      (provides None (Some (errors_New "connection refused"))) ""
    = Panic "assignment to entry in nil map" /\
    @Layout.Handle ascii_tables working_engine L "home"
      (provides None (Some (wrapped "no such user"))) ""
    = Panic "assignment to entry in nil map"
  | Failed _ => False
  end.
Proof. vm_compute. split; reflexivity. Qed.

(** The handler of render.go on the same provider result completes and
    writes the page. *)
Lemma handler_accepts_nil_map_with_error :
  match @RenderGo.New ascii_tables working_engine [] with
  | Ok render =>
    render "home" [provides None (Some (errors_New "connection refused"))] ""
    = Done "<html>home</html>"
  | Failed _ => False
  end.
Proof. vm_compute. reflexivity. Qed.

(** C7 at the fallback message "100%": the render call fails having written
    nothing, and the body is not the configured message. *)
Theorem fallback_with_percent_is_reformatted :
  match @Layout.New failing_engine [Layout.RenderError "100%"],
        @RenderGo.New ascii_tables failing_engine [RenderGo.RenderError "100%"] with
  | Ok L, Ok render =>
    Layout.renderError L = "100%" /\
    @Layout.Handle ascii_tables failing_engine L "home" (provides make None) ""
    = Done "100%!(NOVERB)" /\
    render "home" [provides make None] "" = Done "100%!(NOVERB)"
  | _, _ => False
  end.
Proof. vm_compute. repeat split. Qed.

(** C8 on two Extension options: the second one is the one kept. *)
Lemma options_last_write_wins_witness :
  Layout.field_of (Layout.Extension "tmpl") = Layout.field_of (Layout.Extension "gohtml") /\
  RenderGo.field_of (RenderGo.Extension "tmpl")
  = RenderGo.field_of (RenderGo.Extension "gohtml") /\
  Layout.read Layout.F_extension
    (Layout.apply_options [Layout.Extension "tmpl"; Layout.Extension "gohtml"]
       Layout.defaults) = Layout.SString ".gohtml" /\
  RenderGo.read RenderGo.F_extension
    (RenderGo.apply_options [RenderGo.Extension "tmpl"; RenderGo.Extension "gohtml"]
       RenderGo.defaults) = RenderGo.SString ".gohtml" /\
  @Layout.New working_engine [Layout.Extension "tmpl"; Layout.Extension "gohtml"]
  = @Layout.New working_engine [Layout.Extension "gohtml"] /\
  (exists d cfg,
      @Layout.New working_engine [Layout.Extension "tmpl"; Layout.Extension "gohtml"]
      = Ok d /\
      Layout.extension d = ".gohtml" /\
      Layout.viewEngine d = Some cfg /\ Extension_ cfg = ".gohtml") /\
  (exists lr cfg,
      @RenderGo.New_renderer working_engine
        [RenderGo.Extension "tmpl"; RenderGo.Extension "gohtml"] = Ok lr /\
      RenderGo.extension lr = ".gohtml" /\
      RenderGo.viewEngine lr = Some cfg /\ Extension_ cfg = ".gohtml").
Proof.
  split; [reflexivity|]. split; [reflexivity|].
  destruct (@options_last_write_wins ascii_tables working_engine
              [] (Layout.Extension "tmpl") (Layout.Extension "gohtml")
              [] (RenderGo.Extension "tmpl") (RenderGo.Extension "gohtml")
              eq_refl eq_refl)
    as ((_ & Hread & Hnew) & (_ & Hread' & _) & _ & _ & _ & _ & _ & _ & Hd & Hlr).
  split; [exact Hread|]. split; [exact Hread'|]. split; [exact Hnew|]. split.
  - destruct (@Layout.New working_engine
                [Layout.Extension "tmpl"; Layout.Extension "gohtml"])
      as [d|] eqn:Hok; [|vm_compute in Hok; discriminate Hok].
    destruct (Hd "tmpl" "gohtml" d Hok) as (Hext & cfg & Hcfg & Hcext).
    exists d, cfg. repeat split; assumption.
  - destruct (@RenderGo.New_renderer working_engine
                [RenderGo.Extension "tmpl"; RenderGo.Extension "gohtml"])
      as [lr|] eqn:Hok; [|vm_compute in Hok; discriminate Hok].
    destruct (Hlr "tmpl" "gohtml" lr Hok) as (Hext & cfg & Hcfg & Hcext).
    exists lr, cfg. repeat split; assumption.
Defined.

(** C9 on the listing header.html, footer.html, notes.txt with the default
    extension: the partials are partials/header and partials/footer. *)
Lemma partial_discovery_exact_witness :
  @ioutil_ReadDir working_engine "templates/partials"
  = Ok ["header.html"; "footer.html"; "notes.txt"] /\
  (exists d' cfg,
      @Layout.New working_engine [] = Ok d' /\ Layout.viewEngine d' = Some cfg /\
      partial_set "partials" ".html" ["header.html"; "footer.html"; "notes.txt"]
        (Partials cfg) /\
      Partials cfg = ["partials/header"; "partials/footer"]) /\
  (exists lr' cfg,
      @RenderGo.New_renderer working_engine [] = Ok lr' /\
      RenderGo.viewEngine lr' = Some cfg /\
      partial_set "partials" ".html" ["header.html"; "footer.html"; "notes.txt"]
        (Partials cfg) /\
      Partials cfg = ["partials/header"; "partials/footer"]).
Proof.
  split; [reflexivity|].
  destruct (@partial_discovery_exact working_engine [] []
              ["header.html"; "footer.html"; "notes.txt"]
              ["header.html"; "footer.html"; "notes.txt"] eq_refl eq_refl)
    as [(d' & cfg & Hnew & Hengine & Hset & Honly)
        (lr' & cfg' & Hnew' & Hengine' & Hset' & Honly')].
  split.
  - exists d', cfg. repeat split; try assumption.
    symmetry. apply Honly.
    apply (partial_set_keep "partials" ".html" "header").
    apply (partial_set_keep "partials" ".html" "footer").
    apply partial_set_skip; [|constructor].
    intros stem Hstem.
    assert (HasSuffix "notes.txt" ".html" = true) as Hsuf
      by (apply HasSuffix_spec; eauto).
    discriminate Hsuf.
  - exists lr', cfg'. repeat split; try assumption.
    symmetry. apply Honly'.
    apply (partial_set_keep "partials" ".html" "header").
    apply (partial_set_keep "partials" ".html" "footer").
    apply partial_set_skip; [|constructor].
    intros stem Hstem.
    assert (HasSuffix "notes.txt" ".html" = true) as Hsuf
      by (apply HasSuffix_spec; eauto).
    discriminate Hsuf.
Defined.


(** C5 on one provider that fails with a cause, in each generation. *)
Lemma error_key_set_when_surfaced_witness :
  let failing := provides make (Some (wrapped "no such user")) in
  (exists ctx w' v,
      @RenderGo.handler_context ascii_tables RenderGo.defaults [failing] ""
      = Done (Some ctx, w') /\
      ctx !! "errors" = Some v /\ is_nil v = false) /\
  (exists ctx w' v,
      @Layout.Handle_context ascii_tables Layout.defaults failing "" = Done (ctx, w') /\
      entries ctx !! "error" = Some v /\ is_nil v = false).
Proof.
  intros failing.
  destruct (@error_key_set_when_surfaced ascii_tables Layout.defaults failing
              RenderGo.defaults [failing] "") as [Hacc Hsingle].
  split.
  - apply Hacc. apply Exists_cons_hd. reflexivity.
  - destruct (@Layout.Handle_context ascii_tables Layout.defaults failing "")
      as [[ctx w']|] eqn:Hctx; [|vm_compute in Hctx; discriminate Hctx].
    destruct (Hsingle ctx w' eq_refl) as [v Hv].
    + left. discriminate.
    + exists ctx, w', v. split; [reflexivity | exact Hv].
Defined.

Lemma handler_completes_witness :
  exists lr ctx w1,
    @RenderGo.New_renderer working_engine [] = Ok lr /\
    @RenderGo.handler_context ascii_tables lr
      [provides None (Some (errors_New "connection refused"))] ""
    = Done (Some ctx, w1) /\
    exists w2,
      @RenderGo.handler ascii_tables working_engine lr "home"
        [provides None (Some (errors_New "connection refused"))] "" = Done w2.
Proof.
  destruct (@RenderGo.New_renderer working_engine []) as [lr|] eqn:Hnew;
    [|vm_compute in Hnew; discriminate Hnew].
  destruct (@handler_completes ascii_tables working_engine [] lr "home"
              [provides None (Some (errors_New "connection refused"))] "" Hnew)
    as (ctx & w1 & Hctx & Hdone).
  exists lr, ctx, w1. repeat split; assumption.
Defined.

Lemma handler_fallback_plain_witness :
  exists lr,
    @RenderGo.New_renderer failing_engine [] = Ok lr /\
    @RenderGo.handler ascii_tables failing_engine lr "home" [provides make None] ""
    = Done "Something went wrong.".
Proof.
  destruct (@RenderGo.New_renderer failing_engine []) as [lr|] eqn:Hnew;
    [|vm_compute in Hnew; discriminate Hnew].
  exists lr. split; [reflexivity|].
  destruct (@RenderGo.handler_context ascii_tables lr [provides make None] "")
    as [[ctx w1]|] eqn:Hctx.
  - assert (RenderGo.renderError lr = "Something went wrong.") as Hmsg.
    { vm_compute in Hnew. by injection Hnew as <-. }
    assert (w1 = "") as ->.
    { pose proof (@handler_context_spec ascii_tables lr [provides make None] "")
        as Hspec.
      cbv zeta in Hspec. rewrite Hspec in Hctx.
      vm_compute in Hnew. injection Hnew as <-. by injection Hctx as _ <-. }
    rewrite (@handler_fallback_plain ascii_tables failing_engine [] lr "home"
               [provides make None] "" ctx "" ""
               (errors_New "template not found") Hnew Hctx).
    + by rewrite Hmsg.
    + reflexivity.
    + by rewrite Hmsg.
  - pose proof (@handler_context_spec ascii_tables lr [provides make None] "")
      as Hspec.
    cbv zeta in Hspec. rewrite Hspec in Hctx. discriminate Hctx.
Defined.

Lemma Handle_context_default_entries_win_witness :
  let L :=
    Layout.apply_options
      [Layout.DefaultHandler
         (Some (provides (Some {[ "title" := VString "from default" ]}) None))]
      Layout.defaults in
  let view := provides (Some {[ "title" := VString "from view" ]}) None in
  exists ctx w',
    @Layout.Handle_context ascii_tables L view "" = Done (ctx, w') /\
    entries ctx !! "title" = Some (VString "from default").
Proof.
  intros L view.
  destruct (@Layout.Handle_context ascii_tables L view "") as [[ctx w']|] eqn:Hctx;
    [|vm_compute in Hctx; discriminate Hctx].
  exists ctx, w'. split; [reflexivity|].
  apply (@Handle_context_default_entries_win ascii_tables L view ""
           {[ "title" := VString "from default" ]} "" ctx w' "title"
           (VString "from default")).
  - vm_compute. reflexivity.
  - exact Hctx.
  - discriminate.
  - vm_compute. reflexivity.
Defined.

Lemma Handle_completes_on_made_map_witness :
  exists lr w2,
    @Layout.New working_engine [] = Ok lr /\
    @Layout.Handle ascii_tables working_engine lr "home"
      (provides make (Some (errors_New "connection refused"))) "" = Done w2.
Proof.
  destruct (@Layout.New working_engine []) as [lr|] eqn:Hnew;
    [|vm_compute in Hnew; discriminate Hnew].
  destruct (@Handle_completes_on_made_map ascii_tables working_engine [] lr "home"
              (provides make (Some (errors_New "connection refused"))) "" ∅
              Hnew eq_refl) as [w2 Hdone].
  exists lr, w2. split; [reflexivity | exact Hdone].
Defined.

(** ** The static handlers of the LayoutRenderer *)

Section StaticHandlers.
Context `{CaseTables} `{Collaborators}.

Lemma HandleStaticWithData_context_spec lr data w :
  Layout.HandleStaticWithData_context lr data w
  = Done (Some (entries data
                ∪ (entries (fst (fst (Layout.default_result lr w)))
                   ∪ Layout.error_entry lr
                       (classify (snd (fst (Layout.default_result lr w)))))),
          snd (Layout.default_result lr w)).
Proof.
  unfold Layout.HandleStaticWithData_context.
  by rewrite default_phase_spec, bind_Done, range_assign_made, bind_Done.
Qed.

(** X6. HandleStaticWithData never panics while it assembles its context,
    also on a nil map, and the data given for the view is written last: a
    key of that data holds the data's value, the error key included, and
    every other key holds what the default handler's phase left. *)
Theorem HandleStaticWithData_data_written_last
    (lr : Layout.LayoutRenderer) (data : Layout.M) (w : ResponseWriter) :
  exists ctx,
    Layout.HandleStaticWithData_context lr data w
    = Done (Some ctx, snd (Layout.default_result lr w)) /\
    (forall k v, entries data !! k = Some v -> ctx !! k = Some v) /\
    (forall k,
        entries data !! k = None ->
        ctx !! k
        = (entries (fst (fst (Layout.default_result lr w)))
           ∪ Layout.error_entry lr
               (classify (snd (fst (Layout.default_result lr w))))) !! k).
Proof.
  eexists. split; [apply HandleStaticWithData_context_spec|]. split.
  - intros k v Hk. by apply lookup_union_Some_l.
  - intros k Hk. by apply lookup_union_r.
Qed.

(** X7. Handle with the package's StaticView as view handler and
    HandleStatic both reach the render call, on every renderer and
    response, with the same response state and with contexts, neither of
    them nil, that hold the same entries. The two maps differ in their Go
    type (M in Handle, map[string]interface{} in HandleStatic), which this
    embedding does not carry: nothing is said here of what the engine
    renders from them. *)
Theorem StaticView_context_entries
    (lr : Layout.LayoutRenderer) (w : ResponseWriter) :
  exists ctx1 ctx2 w1,
    Layout.Handle_context lr Layout.StaticView w = Done (ctx1, w1) /\
    Layout.HandleStaticWithData_context lr None w = Done (ctx2, w1) /\
    ctx1 <> None /\ ctx2 <> None /\ entries ctx1 = entries ctx2.
Proof.
  rewrite HandleStaticWithData_context_spec.
  pose proof (Handle_context_spec lr Layout.StaticView w) as Hctx.
  cbv zeta in Hctx. rewrite Hctx. clear Hctx.
  unfold Layout.StaticView, make. cbn [fst snd classify Layout.after_view_error].
  eexists _, _, _. split; [reflexivity|]. split; [reflexivity|].
  split; [done|]. split; [done|]. cbn [entries default].
  by rewrite (left_id_L ∅ (∪)), (right_id_L ∅ (∪)).
Qed.

Lemma assembled_empty_iff lr (dd : gmap string value) derr verr :
  Layout.after_view_error lr (dd ∪ Layout.error_entry lr (classify derr))
    (classify verr) = ∅
  <-> verr = None /\ derr = None /\ dd = ∅.
Proof.
  split.
  - intros Hempty.
    destruct verr as [e|].
    { exfalso. unfold classify in Hempty.
      destruct (errors_Unwrap e); cbn [Layout.after_view_error] in Hempty;
        by apply insert_non_empty in Hempty. }
    cbn [classify Layout.after_view_error] in Hempty.
    pose proof (map_positive_l _ _ Hempty) as Hdd. subst dd.
    rewrite (left_id_L ∅ (∪)) in Hempty.
    destruct derr as [e|]; [|done].
    exfalso. unfold classify in Hempty.
    destruct (errors_Unwrap e); cbn [Layout.error_entry] in Hempty;
      by apply map_non_empty_singleton in Hempty.
  - intros (-> & -> & ->). cbn. by rewrite (left_id_L ∅ (∪)).
Qed.

(** X8. On a renderer New has built, Handle panics exactly when the view
    handler returns a nil map while something has been assembled to write
    into it: an error from either handler, or an entry from the default
    handler. In every other case it completes. *)
Theorem Handle_panics_exactly_on_nil_map
    (opts : list Layout.LayoutRendererOption) (lr : Layout.LayoutRenderer)
    (view : string) (viewHandlerFunc : Layout.ViewHandlerFunc) (w : ResponseWriter) :
  Layout.New opts = Ok lr ->
  let dflt := Layout.default_result lr w in
  let result := viewHandlerFunc (snd dflt) in
  ((exists reason, Layout.Handle lr view viewHandlerFunc w = Panic reason)
   <-> fst (fst result) = None /\
       (snd (fst result) <> None \/ snd (fst dflt) <> None
        \/ entries (fst (fst dflt)) <> ∅)) /\
  ((exists reason, Layout.Handle lr view viewHandlerFunc w = Panic reason)
   \/ exists w2, Layout.Handle lr view viewHandlerFunc w = Done w2).
Proof.
  intros Hnew. cbv zeta.
  assert (forall data w1, exists w2, Layout.render lr view data w1 = Done w2) as Hrender.
  { intros data w1.
    pose proof (Layout_New_unfold opts) as E. simpl in E. rewrite E in Hnew.
    destruct (ioutil_ReadDir _); [|discriminate]. injection Hnew as <-.
    unfold Layout.render. cbn [Layout.viewEngine].
    destruct (ViewEngine_Render _ _ _ _ _) as [w2 [err|]]; eauto. }
  unfold Layout.Handle.
  pose proof (Handle_context_spec lr viewHandlerFunc w) as Hctx.
  cbv zeta in Hctx. rewrite Hctx. clear Hctx.
  destruct (Layout.default_result lr w) as [[dd derr] w0]. cbn [fst snd].
  destruct (viewHandlerFunc w0) as [[data verr] w1]. cbn [fst snd].
  destruct data as [data|].
  - rewrite bind_Done.
    destruct (Hrender (Some (Layout.after_view_error lr
        (entries dd ∪ Layout.error_entry lr (classify derr))
        (classify verr) ∪ data)) w1) as [w2 Hw2].
    rewrite Hw2. split; [|right; eauto].
    split; [intros [reason Hp]; discriminate Hp | intros [Hnil _]; discriminate Hnil].
  - destruct (decide _) as [Hempty|Hfull].
    + rewrite bind_Done. destruct (Hrender None w1) as [w2 Hw2]. rewrite Hw2.
      split; [|right; eauto].
      apply assembled_empty_iff in Hempty as (-> & -> & Hdd).
      split; [intros [reason Hp]; discriminate Hp|].
      intros [_ [Hv|[Hd|Hd]]]; done.
    + split; [|left; eauto]. split; [|eauto].
      intros _. split; [done|].
      destruct verr as [e|]; [left; done|].
      destruct derr as [e|]; [right; left; done|].
      right. right. intros Hdd. apply Hfull.
      by apply assembled_empty_iff.
Qed.

End StaticHandlers.

(** ** More on construction *)

Section MoreConstruction.
Context `{CaseTables} `{Collaborators}.

(** X9. New fails exactly when the listing of root/partials, as the options
    resolve them, fails, and with that same error; when the listing
    succeeds New returns a renderer with an engine, and every field but the
    function table reads as the options left it. Both generations. *)
Theorem New_fails_with_the_listing
    (lopts : list Layout.LayoutRendererOption) (ropts : list RenderGo.Option) :
  let d := Layout.apply_options lopts Layout.defaults in
  let lr := RenderGo.apply_options ropts RenderGo.defaults in
  (forall err,
      Layout.New lopts = Failed err
      <-> ioutil_ReadDir (Layout.root d +:+ "/" +:+ Layout.partials d) = Failed err) /\
  (forall err,
      RenderGo.New ropts = Failed err
      <-> ioutil_ReadDir (RenderGo.root lr +:+ "/" +:+ RenderGo.partials lr)
          = Failed err) /\
  (forall d',
      Layout.New lopts = Ok d' ->
      is_Some (Layout.viewEngine d') /\
      forall f, f <> Layout.F_funcs -> Layout.read f d' = Layout.read f d) /\
  (forall lr',
      RenderGo.New_renderer ropts = Ok lr' ->
      RenderGo.New ropts = Ok (RenderGo.handler lr') /\
      is_Some (RenderGo.viewEngine lr') /\
      forall f, f <> RenderGo.F_funcs -> RenderGo.read f lr' = RenderGo.read f lr).
Proof.
  intros d lr.
  pose proof (Layout_New_unfold lopts) as E1. cbv zeta in E1. fold d in E1.
  pose proof (RenderGo_New_unfold ropts) as E2. cbv zeta in E2. fold lr in E2.
  unfold RenderGo.New. rewrite E1, E2. unfold Sprintf_s_slash_s. clear E1 E2.
  split; [|split; [|split]].
  - intros err. destruct (ioutil_ReadDir _); cbv beta iota; split; intros Heq;
      first [discriminate Heq | by injection Heq as ->].
  - intros err. destruct (ioutil_ReadDir _); cbv beta iota; split; intros Heq;
      first [discriminate Heq | by injection Heq as ->].
  - intros d' Hd'. destruct (ioutil_ReadDir _); [|discriminate Hd'].
    injection Hd' as <-. split; [by eexists|]. intros f Hf. by destruct f.
  - intros lr' Hlr'. destruct (ioutil_ReadDir _); [|discriminate Hlr'].
    injection Hlr' as <-. split; [done|]. split; [by eexists|].
    intros f Hf. by destruct f.
Qed.

Lemma Layout_options_commute o1 o2 d :
  Layout.field_of o1 <> Layout.field_of o2 ->
  Layout.apply_option o1 (Layout.apply_option o2 d)
  = Layout.apply_option o2 (Layout.apply_option o1 d).
Proof. destruct d, o1, o2; simpl; intros Hf; try reflexivity; by destruct Hf. Qed.

Lemma RenderGo_options_commute o1 o2 lr :
  RenderGo.field_of o1 <> RenderGo.field_of o2 ->
  RenderGo.apply_option o1 (RenderGo.apply_option o2 lr)
  = RenderGo.apply_option o2 (RenderGo.apply_option o1 lr).
Proof. destruct lr, o1, o2; simpl; intros Hf; try reflexivity; by destruct Hf. Qed.

Lemma Layout_options_permute opts opts' :
  opts ≡ₚ opts' ->
  NoDup (Layout.field_of <$> opts) ->
  forall d, Layout.apply_options opts d = Layout.apply_options opts' d.
Proof.
  induction 1 as [|o opts opts' Hperm IH|o1 o2 opts|opts1 opts2 opts3 H12 IH12 H23 IH23];
    intros Hnodup d.
  - done.
  - cbn. apply NoDup_cons in Hnodup as [_ Hnodup]. by apply IH.
  - cbn. apply NoDup_cons in Hnodup as [Hne _].
    rewrite Layout_options_commute; [done|].
    intros Heq. apply Hne. rewrite Heq. cbn. left.
  - rewrite IH12 by done. apply IH23. by rewrite <- H12.
Qed.

Lemma RenderGo_options_permute opts opts' :
  opts ≡ₚ opts' ->
  NoDup (RenderGo.field_of <$> opts) ->
  forall lr, RenderGo.apply_options opts lr = RenderGo.apply_options opts' lr.
Proof.
  induction 1 as [|o opts opts' Hperm IH|o1 o2 opts|opts1 opts2 opts3 H12 IH12 H23 IH23];
    intros Hnodup lr.
  - done.
  - cbn. apply NoDup_cons in Hnodup as [_ Hnodup]. by apply IH.
  - cbn. apply NoDup_cons in Hnodup as [Hne _].
    rewrite RenderGo_options_commute; [done|].
    intros Heq. apply Hne. rewrite Heq. cbn. left.
  - rewrite IH12 by done. apply IH23. by rewrite <- H12.
Qed.

(** X10. Options that write different fields can be passed in any order: two
    option lists that are permutations of one another, no field written
    twice, resolve to the same renderer, and New returns the same result
    for both. Both generations. *)
Theorem options_order_is_immaterial
    (lopts lopts' : list Layout.LayoutRendererOption)
    (ropts ropts' : list RenderGo.Option) :
  lopts ≡ₚ lopts' ->
  NoDup (Layout.field_of <$> lopts) ->
  ropts ≡ₚ ropts' ->
  NoDup (RenderGo.field_of <$> ropts) ->
  Layout.apply_options lopts Layout.defaults
  = Layout.apply_options lopts' Layout.defaults /\
  Layout.New lopts = Layout.New lopts' /\
  RenderGo.apply_options ropts RenderGo.defaults
  = RenderGo.apply_options ropts' RenderGo.defaults /\
  RenderGo.New_renderer ropts = RenderGo.New_renderer ropts'.
Proof.
  intros Hl Hln Hr Hrn.
  pose proof (Layout_options_permute _ _ Hl Hln Layout.defaults) as El.
  pose proof (RenderGo_options_permute _ _ Hr Hrn RenderGo.defaults) as Er.
  repeat split; try done.
  - by apply Layout_New_resolved.
  - by apply RenderGo_New_resolved.
Qed.

Lemma Layout_field_cases (f g : Layout.field) : f = g \/ f <> g.
Proof. destruct f, g; (by left) || (by right). Qed.

Lemma RenderGo_field_cases (f g : RenderGo.field) : f = g \/ f <> g.
Proof. destruct f, g; (by left) || (by right). Qed.

Lemma Layout_engine_fields_step o a b :
  (forall f, Layout.is_engine_field f = true -> Layout.read f a = Layout.read f b) ->
  forall f,
    Layout.is_engine_field f = true ->
    Layout.read f (Layout.apply_option o a) = Layout.read f (Layout.apply_option o b).
Proof.
  intros Hab f Hf. destruct (Layout_field_cases (Layout.field_of o) f) as [<-|Hne].
  - by rewrite !Layout_option_writes.
  - rewrite !Layout_option_frame by done. by apply Hab.
Qed.

Lemma RenderGo_engine_fields_step o a b :
  (forall f, RenderGo.is_engine_field f = true -> RenderGo.read f a = RenderGo.read f b) ->
  forall f,
    RenderGo.is_engine_field f = true ->
    RenderGo.read f (RenderGo.apply_option o a)
    = RenderGo.read f (RenderGo.apply_option o b).
Proof.
  intros Hab f Hf. destruct (RenderGo_field_cases (RenderGo.field_of o) f) as [<-|Hne].
  - by rewrite !RenderGo_option_writes.
  - rewrite !RenderGo_option_frame by done. by apply Hab.
Qed.

Lemma Layout_engine_fields_options opts a b :
  (forall f, Layout.is_engine_field f = true -> Layout.read f a = Layout.read f b) ->
  forall f,
    Layout.is_engine_field f = true ->
    Layout.read f (Layout.apply_options opts a)
    = Layout.read f (Layout.apply_options opts b).
Proof.
  revert a b. induction opts as [|o opts IH]; intros a b Hab; [done|].
  cbn. apply IH. by apply Layout_engine_fields_step.
Qed.

Lemma RenderGo_engine_fields_options opts a b :
  (forall f, RenderGo.is_engine_field f = true -> RenderGo.read f a = RenderGo.read f b) ->
  forall f,
    RenderGo.is_engine_field f = true ->
    RenderGo.read f (RenderGo.apply_options opts a)
    = RenderGo.read f (RenderGo.apply_options opts b).
Proof.
  revert a b. induction opts as [|o opts IH]; intros a b Hab; [done|].
  cbn. apply IH. by apply RenderGo_engine_fields_step.
Qed.

(** New on two option lists whose resolved renderers agree on the engine
    fields: the same failure, or the same engine. *)
Lemma Layout_New_engine_fields opts1 opts2 :
  (forall f,
      Layout.is_engine_field f = true ->
      Layout.read f (Layout.apply_options opts1 Layout.defaults)
      = Layout.read f (Layout.apply_options opts2 Layout.defaults)) ->
  match Layout.New opts1, Layout.New opts2 with
  | Ok a, Ok b => Layout.viewEngine a = Layout.viewEngine b
  | Failed e1, Failed e2 => e1 = e2
  | _, _ => False
  end.
Proof.
  intros Hagree.
  pose proof (Layout_New_unfold opts1) as E1.
  pose proof (Layout_New_unfold opts2) as E2. simpl in E1, E2.
  rewrite E1, E2. clear E1 E2.
  pose proof (Hagree Layout.F_root eq_refl) as Hroot.
  pose proof (Hagree Layout.F_partials eq_refl) as Hpartials.
  pose proof (Hagree Layout.F_extension eq_refl) as Hext.
  pose proof (Hagree Layout.F_layouts eq_refl) as Hlayouts.
  pose proof (Hagree Layout.F_layout eq_refl) as Hlayout.
  pose proof (Hagree Layout.F_disableCache eq_refl) as Hcache.
  destruct (Layout.apply_options opts1 Layout.defaults),
           (Layout.apply_options opts2 Layout.defaults).
  cbn in *. simplify_eq. by destruct (ioutil_ReadDir _).
Qed.

Lemma RenderGo_New_engine_fields opts1 opts2 :
  (forall f,
      RenderGo.is_engine_field f = true ->
      RenderGo.read f (RenderGo.apply_options opts1 RenderGo.defaults)
      = RenderGo.read f (RenderGo.apply_options opts2 RenderGo.defaults)) ->
  match RenderGo.New_renderer opts1, RenderGo.New_renderer opts2 with
  | Ok a, Ok b => RenderGo.viewEngine a = RenderGo.viewEngine b
  | Failed e1, Failed e2 => e1 = e2
  | _, _ => False
  end.
Proof.
  intros Hagree.
  pose proof (RenderGo_New_unfold opts1) as E1.
  pose proof (RenderGo_New_unfold opts2) as E2. simpl in E1, E2.
  rewrite E1, E2. clear E1 E2.
  pose proof (Hagree RenderGo.F_root eq_refl) as Hroot.
  pose proof (Hagree RenderGo.F_partials eq_refl) as Hpartials.
  pose proof (Hagree RenderGo.F_extension eq_refl) as Hext.
  pose proof (Hagree RenderGo.F_layouts eq_refl) as Hlayouts.
  pose proof (Hagree RenderGo.F_layout eq_refl) as Hlayout.
  pose proof (Hagree RenderGo.F_disableCache eq_refl) as Hcache.
  destruct (RenderGo.apply_options opts1 RenderGo.defaults),
           (RenderGo.apply_options opts2 RenderGo.defaults).
  cbn in *. simplify_eq. by destruct (ioutil_ReadDir _).
Qed.

(** X11. The engine New builds is decided by six fields: the root, the
    partials, layouts and layout names, the extension and the cache flag.
    An option that writes any other field (AddFuncs, ErrorKey, RenderError,
    DefaultError, Debug, the default handler or data, Delimiters), anywhere
    in the list, changes neither whether New fails nor the configuration
    given to goview.New; in particular its function table is sprig's, with
    none of the functions given to AddFuncs. Both generations. *)
Theorem engine_decided_by_six_fields
    (lopts1 lopts2 : list Layout.LayoutRendererOption) (o : Layout.LayoutRendererOption)
    (ropts1 ropts2 : list RenderGo.Option) (p : RenderGo.Option) :
  Layout.is_engine_field (Layout.field_of o) = false ->
  RenderGo.is_engine_field (RenderGo.field_of p) = false ->
  match Layout.New (lopts1 ++ o :: lopts2), Layout.New (lopts1 ++ lopts2) with
  | Ok a, Ok b => Layout.viewEngine a = Layout.viewEngine b
  | Failed e1, Failed e2 => e1 = e2
  | _, _ => False
  end /\
  match RenderGo.New_renderer (ropts1 ++ p :: ropts2),
        RenderGo.New_renderer (ropts1 ++ ropts2) with
  | Ok a, Ok b => RenderGo.viewEngine a = RenderGo.viewEngine b
  | Failed e1, Failed e2 => e1 = e2
  | _, _ => False
  end /\
  (forall d cfg,
      Layout.New (lopts1 ++ o :: lopts2) = Ok d ->
      Layout.viewEngine d = Some cfg -> Funcs cfg = Some sprig_FuncMap) /\
  (forall lr cfg,
      RenderGo.New_renderer (ropts1 ++ p :: ropts2) = Ok lr ->
      RenderGo.viewEngine lr = Some cfg -> Funcs cfg = Some sprig_FuncMap).
Proof.
  intros Ho Hp. split; [|split; [|split]].
  - apply Layout_New_engine_fields. rewrite !Layout_apply_options_app. cbn.
    apply Layout_engine_fields_options. intros f Hf.
    apply Layout_option_frame. intros Heq. congruence.
  - apply RenderGo_New_engine_fields. rewrite !RenderGo_apply_options_app. cbn.
    apply RenderGo_engine_fields_options. intros f Hf.
    apply RenderGo_option_frame. intros Heq. congruence.
  - intros d cfg Hd Hcfg.
    pose proof (Layout_New_unfold (lopts1 ++ o :: lopts2)) as E. simpl in E.
    rewrite E in Hd. destruct (ioutil_ReadDir _); [|discriminate Hd].
    injection Hd as <-. cbn in Hcfg. by injection Hcfg as <-.
  - intros lr cfg Hlr Hcfg.
    pose proof (RenderGo_New_unfold (ropts1 ++ p :: ropts2)) as E. simpl in E.
    rewrite E in Hlr. destruct (ioutil_ReadDir _); [|discriminate Hlr].
    injection Hlr as <-. cbn in Hcfg. by injection Hcfg as <-.
Qed.

End MoreConstruction.

(** ** Formats and shown texts *)

Section Texts.
Context `{CaseTables} `{Collaborators}.

Lemma bytes_of_cons c s :
  bytes_of (String c s) = Z.of_N (N_of_ascii c) :: bytes_of s.
Proof. reflexivity. Qed.





Lemma bytes_of_range s : Forall (fun b => 0 <= b < 256) (bytes_of s).
Proof.
  induction s as [|c s IH]; [constructor|]. rewrite bytes_of_cons.
  constructor; [|done]. pose proof (N_ascii_bounded c). lia.
Qed.

Lemma bytes_of_length s : List.length (bytes_of s) = String.length s.
Proof. induction s as [|c s IH]; [done|]. rewrite bytes_of_cons. cbn. by rewrite IH. Qed.

Lemma bytes_of_inj s t : bytes_of s = bytes_of t -> s = t.
Proof.
  intros Heq. by rewrite <- (string_of_bytes_of s), Heq, string_of_bytes_of.
Qed.

Lemma bytes_of_string_of bs :
  Forall (fun b => 0 <= b < 256) bs -> bytes_of (string_of bs) = bs.
Proof.
  intros Hbs. unfold bytes_of, string_of.
  rewrite list_ascii_of_string_of_list_ascii, map_map.
  induction Hbs as [|b bs Hb _ IH]; [done|]. cbn [map]. rewrite IH. f_equal.
  rewrite N_ascii_embedding by lia. lia.
Qed.

Lemma runes_of_ascii bs : is_ascii bs = true -> runes_from 0 bs = bs.
Proof.
  induction bs as [|b bs IH]; [done|]. cbn [is_ascii forallb].
  rewrite andb_true_iff. intros [Hb Hbs]. cbn [runes_from DecodeRune].
  rewrite Hb. cbn. f_equal. by apply IH.
Qed.

Lemma encode_ascii_runes rs :
  Forall (fun r => 0 <= r <= 127) rs -> concat (map EncodeRune rs) = rs.
Proof.
  induction 1 as [|r rs Hr _ IH]; [done|]. cbn [map concat]. rewrite IH.
  unfold EncodeRune, between.
  destruct (Z.leb_spec 0 r), (Z.leb_spec r 0x7F); cbn; (done || lia).
Qed.

Lemma ascii_bytes_bounds bs :
  Forall (fun b => 0 <= b < 256) bs -> is_ascii bs = true ->
  Forall (fun b => 0 <= b <= 127) bs.
Proof.
  induction 1 as [|b bs Hb _ IH]; [constructor|]. cbn [is_ascii forallb].
  rewrite andb_true_iff. intros [Hlt Hbs]. constructor; [|by apply IH].
  unfold RuneSelf in Hlt. apply Z.ltb_lt in Hlt. lia.
Qed.

Lemma ToLower_ascii b : 0 <= b <= 127 -> 0 <= ToLower b <= 127.
Proof.
  intros Hb. unfold ToLower, between.
  destruct (Z.leb_spec b 0x7F); [|lia].
  destruct (Z.leb_spec 65 b), (Z.leb_spec b 90); cbn; lia.
Qed.

Lemma ToUpper_ascii b : 0 <= b <= 127 -> 0 <= ToUpper b <= 127.
Proof.
  intros Hb. unfold ToUpper, between.
  destruct (Z.leb_spec b 0x7F); [|lia].
  destruct (Z.leb_spec 97 b), (Z.leb_spec b 122); cbn; lia.
Qed.

Ltac split_comparisons :=
  repeat match goal with
         | |- context [?a <=? ?c] =>
           lazymatch a with
           | context [Z.leb] => fail
           | _ => destruct (Z.leb_spec a c); cbn [andb]
           end
         end.

Lemma ToLower_twice b : 0 <= b <= 127 -> ToLower (ToLower b) = ToLower b.
Proof.
  intros Hb. unfold ToLower, between. split_comparisons; lia.
Qed.

Lemma ToUpper_ToLower_twice b :
  0 <= b <= 127 -> ToUpper (ToLower (ToUpper (ToLower b))) = ToUpper (ToLower b).
Proof.
  intros Hb. unfold ToLower, ToUpper, between. split_comparisons; lia.
Qed.

Lemma Forall_bounds_ascii bs :
  Forall (fun b => 0 <= b <= 127) bs ->
  Forall (fun b => 0 <= b < 256) bs /\ is_ascii bs = true.
Proof.
  induction 1 as [|b bs Hb _ [IH1 IH2]]; [by split|]. split.
  - constructor; [lia | done].
  - cbn [is_ascii forallb]. fold (is_ascii bs). rewrite IH2, andb_true_r.
    apply Z.ltb_lt. unfold RuneSelf. lia.
Qed.

Lemma strings_ToLower_ascii s :
  is_ascii (bytes_of s) = true ->
  strings_ToLower s = string_of (map ToLower (bytes_of s)).
Proof.
  intros Hs. unfold strings_ToLower. cbv zeta. rewrite Hs. f_equal.
  pose proof (ascii_bytes_bounds _ (bytes_of_range s) Hs) as Hb.
  apply map_ext_Forall. eapply List.Forall_impl; [|exact Hb].
  intros b Hb'. cbv beta in *. unfold ToLower.
  destruct (Z.leb_spec b 0x7F); [done | lia].
Qed.

(** The bytes of the shown text of an ASCII message. *)
Lemma shown_ascii_bytes s :
  is_ascii (bytes_of s) = true ->
  bytes_of (first (strings_ToLower s))
  = match bytes_of s with
    | [] => []
    | b :: rest => ToUpper (ToLower b) :: map ToLower rest
    end.
Proof.
  intros Hs. rewrite strings_ToLower_ascii by done.
  pose proof (ascii_bytes_bounds _ (bytes_of_range s) Hs) as Hb.
  destruct (bytes_of s) as [|b rest]; [done|].
  apply Forall_cons in Hb as [Hb Hrest].
  assert (Forall (fun b => 0 <= b <= 127) (map ToLower rest)) as Hlower.
  { clear -Hrest. induction Hrest; constructor; [by apply ToLower_ascii | done]. }
  assert (Forall (fun b => 0 <= b <= 127) (ToLower b :: map ToLower rest)) as Hall
    by (constructor; [by apply ToLower_ascii | done]).
  assert (Forall (fun b => 0 <= b <= 127) (ToUpper (ToLower b) :: map ToLower rest))
    as Hres by (constructor; [by apply ToUpper_ascii, ToLower_ascii | done]).
  apply Forall_bounds_ascii in Hall as [Hrange Hascii].
  apply Forall_bounds_ascii in Hres as Hres'. destruct Hres' as [Hrange' _].
  unfold first. cbn [map].
  replace (String.length (string_of (ToLower b :: map ToLower rest)) =? 0)%nat
    with false by done.
  unfold runes. rewrite bytes_of_string_of, runes_of_ascii by done.
  unfold string_of_runes. rewrite encode_ascii_runes by done.
  by apply bytes_of_string_of.
Qed.

(** X13. For an ASCII message the shown text first(strings.ToLower(m)) has
    the length of the message, its first byte is the message's first byte
    lower-cased and then upper-cased, every later byte is the message's
    byte lower-cased, and showing the shown text again changes nothing. *)
Theorem shown_text_of_ascii_message (message : string) :
  is_ascii (bytes_of message) = true ->
  bytes_of (first (strings_ToLower message))
  = match bytes_of message with
    | [] => []
    | b :: rest => ToUpper (ToLower b) :: map ToLower rest
    end /\
  String.length (first (strings_ToLower message)) = String.length message /\
  first (strings_ToLower (first (strings_ToLower message)))
  = first (strings_ToLower message).
Proof.
  intros Hs. pose proof (shown_ascii_bytes message Hs) as Hbytes.
  pose proof (ascii_bytes_bounds _ (bytes_of_range message) Hs) as Hb.
  split; [exact Hbytes|]. split.
  - rewrite <- !bytes_of_length, Hbytes.
    destruct (bytes_of message); [done|]. cbn. by rewrite length_map.
  - apply bytes_of_inj.
    assert (is_ascii (bytes_of (first (strings_ToLower message))) = true) as Hshown.
    { rewrite Hbytes. destruct (bytes_of message) as [|b rest]; [done|].
      apply Forall_cons in Hb as [Hb Hrest].
      apply Forall_bounds_ascii. constructor.
      - by apply ToUpper_ascii, ToLower_ascii.
      - clear -Hrest. induction Hrest; constructor; [by apply ToLower_ascii | done]. }
    rewrite (shown_ascii_bytes _ Hshown), Hbytes.
    destruct (bytes_of message) as [|b rest]; [done|].
    apply Forall_cons in Hb as [Hb Hrest].
    rewrite ToUpper_ToLower_twice by done. f_equal.
    rewrite map_map. clear -Hrest.
    induction Hrest as [|x rest Hx _ IH]; [done|]. cbn [map].
    by rewrite IH, ToLower_twice.
Qed.

End Texts.

(** ** Static data in the accumulating handler *)

Section StaticProviders.
Context `{CaseTables} `{Collaborators}.





End StaticProviders.

(** ** UTF-8: what first does to a well-formed message *)

Section Utf8.
Context `{CaseTables}.

Lemma lor_shiftl_low hi lo n :
  0 <= n -> 0 <= lo < 2 ^ n -> Z.lor (Z.shiftl hi n) lo = hi * 2 ^ n + lo.
Proof.
  intros Hn Hlo. rewrite <- Z.shiftl_mul_pow2 by done.
  assert (Z.land (Z.shiftl hi n) lo = 0) as Hland.
  { apply Z.bits_inj'. intros i Hi. rewrite Z.land_spec, Z.bits_0.
    destruct (Z.lt_ge_cases i n) as [Hlt|Hge].
    - by rewrite Z.shiftl_spec_low.
    - rewrite <- (Z.mod_small lo (2 ^ n)) by done.
      rewrite Z.mod_pow2_bits_high by lia. apply andb_false_r. }
  by rewrite <- Z.lxor_lor, <- Z.add_nocarry_lxor.
Qed.

Lemma low6_mod x : low6 x = x mod 64.
Proof. unfold low6. change 0x3F with (Z.ones 6). by rewrite Z.land_ones. Qed.

(** Comparisons whose sides hold no comparison themselves are settled by
    arithmetic where that decides them, and split otherwise. *)
Ltac plain_side a :=
  lazymatch a with
  | context [Z.leb] => fail
  | context [Z.ltb] => fail
  | context [Z.eqb] => fail
  | _ => idtac
  end.

Ltac settle_comparisons :=
  repeat (match goal with
          | |- context [?a <? ?b] =>
            plain_side a; plain_side b;
            first [ rewrite (proj2 (Z.ltb_lt a b)) by lia
                  | rewrite (proj2 (Z.ltb_ge a b)) by lia
                  | destruct (Z.ltb_spec a b) ]
          | |- context [?a <=? ?b] =>
            plain_side a; plain_side b;
            first [ rewrite (proj2 (Z.leb_le a b)) by lia
                  | rewrite (proj2 (Z.leb_gt a b)) by lia
                  | destruct (Z.leb_spec a b) ]
          | |- context [?a =? ?b] =>
            plain_side a; plain_side b;
            first [ rewrite (proj2 (Z.eqb_eq a b)) by lia
                  | rewrite (proj2 (Z.eqb_neq a b)) by lia
                  | destruct (Z.eqb_spec a b) ]
          end; cbn [andb orb]).

(** DecodeRune accepts the well-formed sequences of two, three and four
    bytes and reads no byte beyond them. *)
Lemma DecodeRune_two a b tail :
  2 <= a < 32 -> 0 <= b < 64 ->
  DecodeRune (192 + a :: 128 + b :: tail) = (a * 64 + b, 2%nat).
Proof.
  intros Ha Hb. unfold DecodeRune, is_cont, between, RuneSelf.
  settle_comparisons. f_equal.
  rewrite low6_mod. change 0x1F with (Z.ones 5). rewrite Z.land_ones by lia.
  rewrite lor_shiftl_low by (Z.div_mod_to_equations; lia).
  Z.div_mod_to_equations; lia.
Qed.

Lemma DecodeRune_three a b c tail :
  0 <= a < 16 -> 0 <= b < 64 -> 0 <= c < 64 ->
  (a = 0 -> 32 <= b) -> (a = 13 -> b < 32) ->
  DecodeRune (224 + a :: 128 + b :: 128 + c :: tail)
  = (a * 4096 + b * 64 + c, 3%nat).
Proof.
  intros Ha Hb Hc Hlow Hsur. unfold DecodeRune, is_cont, between, RuneSelf.
  cbv zeta. settle_comparisons; try lia; f_equal;
    rewrite !low6_mod; change 0x0F with (Z.ones 4); rewrite Z.land_ones by lia;
    rewrite (lor_shiftl_low _ _ 6) by (Z.div_mod_to_equations; lia);
    rewrite (lor_shiftl_low _ _ 12) by (Z.div_mod_to_equations; lia);
    Z.div_mod_to_equations; lia.
Qed.

Lemma DecodeRune_four a b c d tail :
  0 <= a <= 4 -> 0 <= b < 64 -> 0 <= c < 64 -> 0 <= d < 64 ->
  (a = 0 -> 16 <= b) -> (a = 4 -> b < 16) ->
  DecodeRune (240 + a :: 128 + b :: 128 + c :: 128 + d :: tail)
  = (a * 262144 + b * 4096 + c * 64 + d, 4%nat).
Proof.
  intros Ha Hb Hc Hd Hlow Hmax. unfold DecodeRune, is_cont, between, RuneSelf.
  cbv zeta. settle_comparisons; try lia; f_equal;
    rewrite !low6_mod; change 0x07 with (Z.ones 3); rewrite Z.land_ones by lia;
    rewrite (lor_shiftl_low _ _ 6) by (Z.div_mod_to_equations; lia);
    rewrite (lor_shiftl_low _ _ 12) by (Z.div_mod_to_equations; lia);
    rewrite (lor_shiftl_low _ _ 18) by (Z.div_mod_to_equations; lia);
    Z.div_mod_to_equations; lia.
Qed.

(** The bytes EncodeRune writes, as quotients and remainders. *)
Lemma lor_tag tag n x :
  0 <= n -> 0 <= x < 2 ^ n -> Z.lor (tag * 2 ^ n) x = tag * 2 ^ n + x.
Proof.
  intros Hn Hx. rewrite <- Z.shiftl_mul_pow2 by done.
  rewrite lor_shiftl_low by done. by rewrite Z.shiftl_mul_pow2.
Qed.

Lemma lor_continuation x : 0 <= x < 64 -> Z.lor 0x80 x = 128 + x.
Proof. intros Hx. change 0x80 with (2 * 2 ^ 6). by rewrite lor_tag. Qed.

Lemma EncodeRune_two r :
  0x80 <= r <= 0x7FF -> EncodeRune r = [192 + r / 64; 128 + r mod 64].
Proof.
  intros Hr. unfold EncodeRune, between. settle_comparisons; try lia;
    rewrite low6_mod, Z.shiftr_div_pow2 by lia; change (2 ^ 6) with 64;
    rewrite lor_continuation by (Z.div_mod_to_equations; lia);
    change 0xC0 with (6 * 2 ^ 5);
    by rewrite lor_tag by (Z.div_mod_to_equations; lia).
Qed.

Lemma EncodeRune_three r :
  0x800 <= r <= 0xFFFF -> ~ 0xD800 <= r <= 0xDFFF ->
  EncodeRune r = [224 + r / 4096; 128 + (r / 64) mod 64; 128 + r mod 64].
Proof.
  intros Hr Hsur. unfold EncodeRune, between, MaxRune. settle_comparisons; try lia;
    rewrite !low6_mod, !Z.shiftr_div_pow2 by lia;
    change (2 ^ 6) with 64; change (2 ^ 12) with 4096;
    rewrite !lor_continuation by (Z.div_mod_to_equations; lia);
    change 0xE0 with (14 * 2 ^ 4);
    by rewrite lor_tag by (Z.div_mod_to_equations; lia).
Qed.

Lemma EncodeRune_four r :
  0x10000 <= r <= MaxRune ->
  EncodeRune r
  = [240 + r / 262144; 128 + (r / 4096) mod 64; 128 + (r / 64) mod 64;
     128 + r mod 64].
Proof.
  unfold MaxRune. intros Hr. unfold EncodeRune, between, MaxRune.
  settle_comparisons; try lia;
    rewrite !low6_mod, !Z.shiftr_div_pow2 by lia;
    change (2 ^ 6) with 64; change (2 ^ 12) with 4096; change (2 ^ 18) with 262144;
    rewrite !lor_continuation by (Z.div_mod_to_equations; lia);
    change 0xF0 with (30 * 2 ^ 3);
    by rewrite lor_tag by (Z.div_mod_to_equations; lia).
Qed.

Lemma ValidRune_cases r :
  ValidRune r = true ->
  0 <= r <= 0x7F \/ 0x80 <= r <= 0x7FF
  \/ (0x800 <= r <= 0xFFFF /\ ~ 0xD800 <= r <= 0xDFFF)
  \/ 0x10000 <= r <= MaxRune.
Proof.
  unfold ValidRune, MaxRune.
  destruct (Z.leb_spec 0 r), (Z.ltb_spec r 0xD800), (Z.ltb_spec 0xDFFF r),
    (Z.leb_spec r 0x10FFFF); cbn; intros Hv; try discriminate Hv; lia.
Qed.

(** Decoding what EncodeRune wrote for a valid rune gives the rune back and
    passes over exactly the bytes written. *)
Lemma DecodeRune_EncodeRune r tail :
  ValidRune r = true ->
  DecodeRune (EncodeRune r ++ tail) = (r, List.length (EncodeRune r)) /\
  Forall (fun b => 0 <= b < 256) (EncodeRune r) /\
  EncodeRune r <> [].
Proof.
  intros Hv. destruct (ValidRune_cases r Hv) as [Hr|[Hr|[[Hr Hsur]|Hr]]].
  - assert (EncodeRune r = [r]) as ->.
    { unfold EncodeRune, between. by settle_comparisons. }
    split; [|split; [|done]].
    + cbn [app DecodeRune]. unfold RuneSelf. by settle_comparisons.
    + repeat constructor; lia.
  - rewrite EncodeRune_two by done. split; [|split; [|done]].
    + cbn [app List.length]. rewrite DecodeRune_two by (Z.div_mod_to_equations; lia).
      f_equal. Z.div_mod_to_equations; lia.
    + repeat constructor; Z.div_mod_to_equations; lia.
  - rewrite EncodeRune_three by done. split; [|split; [|done]].
    + cbn [app List.length].
      rewrite DecodeRune_three by (Z.div_mod_to_equations; lia).
      f_equal. Z.div_mod_to_equations; lia.
    + repeat constructor; Z.div_mod_to_equations; lia.
  - rewrite EncodeRune_four by done. unfold MaxRune in Hr.
    split; [|split; [|done]].
    + cbn [app List.length].
      rewrite DecodeRune_four by (Z.div_mod_to_equations; lia).
      f_equal. Z.div_mod_to_equations; lia.
    + repeat constructor; Z.div_mod_to_equations; lia.
Qed.

Lemma runes_from_skip skipped tail :
  runes_from (List.length skipped) (skipped ++ tail) = runes_from 0 tail.
Proof. induction skipped as [|b skipped IH]; [done|]. exact IH. Qed.

Lemma runes_from_EncodeRune r tail :
  ValidRune r = true ->
  runes_from 0 (EncodeRune r ++ tail) = r :: runes_from 0 tail.
Proof.
  intros Hv. destruct (DecodeRune_EncodeRune r tail Hv) as (Hdecode & _ & Hne).
  destruct (EncodeRune r) as [|b rest]; [done|].
  change ((b :: rest) ++ tail) with (b :: rest ++ tail) in *.
  cbn [runes_from]. rewrite Hdecode. cbn [List.length].
  rewrite Nat.sub_1_r. cbn [Nat.pred]. by rewrite runes_from_skip.
Qed.

Lemma string_of_app bs1 bs2 :
  string_of (bs1 ++ bs2) = string_of bs1 +:+ string_of bs2.
Proof.
  induction bs1 as [|b bs1 IH]; [done|].
  unfold string_of in *. cbn [app map string_of_list_ascii].
  rewrite IH. reflexivity.
Qed.

Lemma bytes_of_app s t : bytes_of (s +:+ t) = bytes_of s ++ bytes_of t.
Proof.
  induction s as [|c s IH]; [done|].
  change (String c s +:+ t) with (String c (s +:+ t)).
  rewrite !bytes_of_cons, IH. reflexivity.
Qed.

Lemma string_of_nonempty b bs : string_of (b :: bs) <> "".
Proof. done. Qed.

Lemma EncodeRune_nonempty r : EncodeRune r <> [].
Proof.
  unfold EncodeRune.
  destruct (between 0 0x7F r); [done|]. destruct (between 0x80 0x7FF r); [done|].
  destruct (_ || _); [done|]. by destruct (r <=? 0xFFFF).
Qed.

(** X15. On a message that is the encoding of a valid code point followed
    by text that survives the conversion to runes and back (well-formed
    UTF-8), first replaces the encoding of the first code point by the
    encoding of its upper case and returns every later byte as it was; the
    message is returned unchanged when the first code point is its own
    upper case. *)
Theorem first_changes_first_rune_only (r : Z) (t : string) :
  ValidRune r = true ->
  string_of_runes (runes t) = t ->
  first (string_of_runes [r] +:+ t) = string_of_runes [ToUpper r] +:+ t /\
  (ToUpper r = r -> first (string_of_runes [r] +:+ t) = string_of_runes [r] +:+ t).
Proof.
  intros Hv Ht.
  assert (first (string_of_runes [r] +:+ t) = string_of_runes [ToUpper r] +:+ t)
    as Hfirst.
  { destruct (DecodeRune_EncodeRune r [] Hv) as (_ & Hrange & Hne).
    assert (string_of_runes [r] = string_of (EncodeRune r)) as Hs.
    { unfold string_of_runes. cbn [map concat]. by rewrite app_nil_r. }
    assert (runes (string_of (EncodeRune r) +:+ t) = r :: runes t) as Hrunes.
    { unfold runes. rewrite bytes_of_app, bytes_of_string_of by done.
      by apply runes_from_EncodeRune. }
    assert ((String.length (string_of (EncodeRune r) +:+ t) =? 0)%nat = false)
      as Hlength by (by destruct (EncodeRune r)).
    rewrite Hs. unfold first. rewrite Hlength, Hrunes.
    unfold string_of_runes in *. cbn [map concat].
    by rewrite app_nil_r, string_of_app, Ht. }
  split; [exact Hfirst|]. intros Hsame. by rewrite Hfirst, Hsame.
Qed.

(** X16. first returns the empty string for the empty string only. *)
Theorem first_empty_only_for_empty (s : string) : first s = "" <-> s = "".
Proof.
  split; [|by intros ->]. intros Hfirst.
  destruct s as [|c s]; [done|]. exfalso.
  unfold first in Hfirst. cbn [String.length Nat.eqb] in Hfirst.
  pose proof (runes_nonempty (String c s)) as Hrunes.
  destruct (runes (String c s)) as [|r rest]; [by apply Hrunes|].
  unfold string_of_runes in Hfirst. cbn [map concat] in Hfirst.
  pose proof (EncodeRune_nonempty (ToUpper r)) as Hne.
  destruct (EncodeRune (ToUpper r)) as [|b bs]; [done|].
  by apply string_of_nonempty in Hfirst.
Qed.

End Utf8.

(** ** The further properties on concrete collaborators *)

Lemma Handle_panics_exactly_on_nil_map_witness :
  exists lr,
    @Layout.New working_engine [] = Ok lr /\
    exists reason,
      @Layout.Handle ascii_tables working_engine lr "home"
        (provides None (Some (errors_New "connection refused"))) ""
      = Panic reason.
Proof.
  destruct (@Layout.New working_engine []) as [lr|] eqn:Hnew;
    [|vm_compute in Hnew; discriminate Hnew].
  exists lr. split; [reflexivity|].
  pose proof (@Handle_panics_exactly_on_nil_map ascii_tables working_engine [] lr
                "home" (provides None (Some (errors_New "connection refused"))) ""
                Hnew) as Hexact.
  cbv zeta in Hexact. destruct Hexact as [[_ Hpanic] _].
  apply Hpanic. split; [reflexivity|]. left. discriminate.
Defined.

Lemma options_order_is_immaterial_witness :
  @Layout.New working_engine [Layout.Layout "main"; Layout.ErrorKey "problem"]
  = @Layout.New working_engine [Layout.ErrorKey "problem"; Layout.Layout "main"] /\
  @RenderGo.New_renderer working_engine
    [RenderGo.Extension "tmpl"; RenderGo.Debug true]
  = @RenderGo.New_renderer working_engine
      [RenderGo.Debug true; RenderGo.Extension "tmpl"].
Proof.
  destruct (@options_order_is_immaterial working_engine
              [Layout.Layout "main"; Layout.ErrorKey "problem"]
              [Layout.ErrorKey "problem"; Layout.Layout "main"]
              [RenderGo.Extension "tmpl"; RenderGo.Debug true]
              [RenderGo.Debug true; RenderGo.Extension "tmpl"])
    as (_ & Hl & _ & Hr).
  - apply perm_swap.
  - cbn. apply NoDup_cons.
    split; [by intros ?%list_elem_of_singleton | apply NoDup_singleton].
  - apply perm_swap.
  - cbn. apply NoDup_cons.
    split; [by intros ?%list_elem_of_singleton | apply NoDup_singleton].
  - split; [exact Hl | exact Hr].
Defined.

Lemma engine_decided_by_six_fields_witness :
  match @Layout.New working_engine
          [Layout.Layout "main"; Layout.AddFuncs (Some {[ "shout" := FuncImpl 7 ]})],
        @Layout.New working_engine [Layout.Layout "main"] with
  | Ok a, Ok b => Layout.viewEngine a = Layout.viewEngine b
  | Failed e1, Failed e2 => e1 = e2
  | _, _ => False
  end /\
  match @RenderGo.New_renderer working_engine
          [RenderGo.Debug true; RenderGo.Extension "tmpl"],
        @RenderGo.New_renderer working_engine [RenderGo.Extension "tmpl"] with
  | Ok a, Ok b => RenderGo.viewEngine a = RenderGo.viewEngine b
  | Failed e1, Failed e2 => e1 = e2
  | _, _ => False
  end.
Proof.
  destruct (@engine_decided_by_six_fields working_engine
              [Layout.Layout "main"] []
              (Layout.AddFuncs (Some {[ "shout" := FuncImpl 7 ]}))
              [] [RenderGo.Extension "tmpl"] (RenderGo.Debug true)
              eq_refl eq_refl) as (Hl & Hr & _).
  split; [exact Hl | exact Hr].
Defined.


Lemma shown_text_of_ascii_message_witness :
  is_ascii (bytes_of "connection REFUSED") = true /\
  String.length
    (@first ascii_tables (@strings_ToLower ascii_tables "connection REFUSED"))
  = 18%nat /\
  @first ascii_tables
    (@strings_ToLower ascii_tables
       (@first ascii_tables (@strings_ToLower ascii_tables "connection REFUSED")))
  = @first ascii_tables (@strings_ToLower ascii_tables "connection REFUSED").
Proof.
  split; [reflexivity|].
  destruct (@shown_text_of_ascii_message ascii_tables "connection REFUSED" eq_refl)
    as (_ & Hlength & Hagain).
  split; [exact Hlength | exact Hagain].
Defined.


Lemma first_changes_first_rune_only_witness :
  ValidRune 104 = true /\
  string_of_runes (runes (string_of [195; 169; 108; 108; 111]))
  = string_of [195; 169; 108; 108; 111] /\
  @first ascii_tables ("h" +:+ string_of [195; 169; 108; 108; 111])
  = "H" +:+ string_of [195; 169; 108; 108; 111].
Proof.
  split; [reflexivity|]. split; [reflexivity|].
  destruct (@first_changes_first_rune_only ascii_tables 104
              (string_of [195; 169; 108; 108; 111]) eq_refl eq_refl)
    as [Hfirst _].
  exact Hfirst.
Defined.
